(** * reviews/models.py of api_yamdb: schema, validators and get_mean_score

    A shallow embedding of [api_yamdb/reviews/models.py].  The file declares
    five Django models (Category, Genre, Title, Review, Comment) and one
    method, [Review.get_mean_score].  The declarations are embedded together
    with the part of Django and Python they invoke:

    - field validators ([MinValueValidator], [MaxValueValidator], the
      validators an integer field adds for the range of its column);
    - the tables, with the constraints the schema declares and the
      database carries (foreign keys and their [on_delete] rule, unique
      constraints, the column check of a positive integer), as a state
      machine over [DB], and the rendering of the declared check
      constraint;
    - exceptions, [try]/[except], [round], [aggregate] and
      [get_object_or_404] for [get_mean_score]. *)

From Stdlib Require Import ZArith QArith Qround.
From stdpp Require Import gmap strings list fin_maps.

Local Open Scope Z_scope.

(** ** Python: exceptions and results *)

(** One entry of a [ValidationError]'s error list: the validator's [code]
    with the [limit_value] and [show_value] parameters of its message. *)
Record ErrorEntry := {
  code : string;
  limit_param : Z;
  show_value : Z;
}.

Inductive Exception :=
| Http404
| TypeError
| FieldError
| ValidationError (error_list : list ErrorEntry)
| IntegrityError (constraint : string).

(** A call either returns a value or raises. *)
Inductive Res (A : Type) :=
| Return (a : A)
| Raise (e : Exception).
Arguments Return {A} a.
Arguments Raise {A} e.

#[global] Instance Res_ret : MRet Res := λ A a, Return a.
#[global] Instance Res_bind : MBind Res := λ A B k m,
  match m with
  | Return a => k a
  | Raise e => Raise e
  end.

(** [try: body except: handler] with a bare [except], which catches every
    exception raised by [body]. *)
Definition try_except {A} (body : Res A) (handler : Res A) : Res A :=
  match body with
  | Return a => Return a
  | Raise _ => handler
  end.

Definition raises {A} (m : Res A) : Prop :=
  match m with Return _ => False | Raise _ => True end.

(** ** Python: the values get_mean_score handles *)

#[warnings="-register-all"] Inductive PyVal :=
| PyNone
| PyInt (n : Z)
| PyFloat (q : Q)
| PyDict (items : list (string * PyVal)).

(** [round(x)] without [ndigits] on a number: the nearest integer, ties to
    the even one.  A float is held as the rational it denotes. *)
Definition round_half_even (q : Q) : Z :=
  let f := Qfloor q in
  match (q - inject_Z f ?= 1 # 2)%Q with
  | Lt => f
  | Gt => f + 1
  | Eq => if Z.even f then f else f + 1
  end.

(** The builtin [round]: it calls [__round__], which [int] and [float] have
    and [dict] and [None] do not ([TypeError]). *)
Definition round (x : PyVal) : Res PyVal :=
  match x with
  | PyInt n => Return (PyInt n)
  | PyFloat q => Return (PyInt (round_half_even q))
  | PyNone | PyDict _ => Raise TypeError
  end.

(** ** datetime.date *)

Module datetime.
Record date := { year : Z; month : Z; day : Z }.
Definition MINYEAR : Z := 1.
Definition MAXYEAR : Z := 9999.
(** The years a [date] object can hold. *)
Definition year_in_range (d : date) : Prop :=
  MINYEAR ≤ year d ≤ MAXYEAR.
End datetime.

(** ** django.core.validators *)

(** [limit_value] of a validator is either a value, fixed when the validator
    is built, or a callable, called at each validation.  A callable that
    reads the clock is a function of the day of the call. *)
Inductive Limit :=
| LimitValue (z : Z)
| LimitCallable (f : datetime.date → Z).

Inductive ValidatorKind := MinValue | MaxValue.

Record Validator := {
  kind : ValidatorKind;
  limit_value : Limit;
}.

Definition MinValueValidator (l : Limit) : Validator :=
  {| kind := MinValue; limit_value := l |}.
Definition MaxValueValidator (l : Limit) : Validator :=
  {| kind := MaxValue; limit_value := l |}.

(** [self.limit_value() if callable(self.limit_value) else self.limit_value] *)
Definition eval_limit (today : datetime.date) (l : Limit) : Z :=
  match l with
  | LimitValue z => z
  | LimitCallable f => f today
  end.

(** [compare(a, b)]: true when the value is to be refused. *)
Definition compare (k : ValidatorKind) (a b : Z) : bool :=
  match k with
  | MinValue => a <? b
  | MaxValue => a >? b
  end.

Definition validator_code (k : ValidatorKind) : string :=
  match k with
  | MinValue => "min_value"
  | MaxValue => "max_value"
  end.

(** [BaseValidator.__call__]: the errors the validator raises on [value]
    (none when it accepts). *)
Definition call_validator (today : datetime.date) (v : Validator) (value : Z)
  : list ErrorEntry :=
  let limit := eval_limit today (limit_value v) in
  if compare (kind v) value limit
  then [ {| code := validator_code (kind v);
            limit_param := limit; show_value := value |} ]
  else [].

(** The entries the two validators raise. *)
Definition max_value_error (limit y : Z) : ErrorEntry :=
  {| code := "max_value"; limit_param := limit; show_value := y |}.
Definition min_value_error (limit y : Z) : ErrorEntry :=
  {| code := "min_value"; limit_param := limit; show_value := y |}.

(** ** django.db.models: integer fields *)

Inductive InternalType := IntegerField | PositiveIntegerField.

Record Field := {
  internal_type : InternalType;
  declared_validators : list Validator;
}.

(** [connection.ops.integer_field_range(internal_type)]: the bounds the
    configured database backend reports for the column of an integer field,
    [None] for a bound it does not report.  The backend is settled outside
    models.py, so the table is a parameter of everything below. *)
Definition Ranges : Type := InternalType → option Z * option Z.

(** [BaseDatabaseOperations.integer_field_ranges], which PostgreSQL uses as
    it is. *)
Definition base_ranges : Ranges :=
  λ t, match t with
       | IntegerField => (Some (-2147483648), Some 2147483647)
       | PositiveIntegerField => (Some 0, Some 2147483647)
       end.

(** A backend that reports no bound at all, as the SQLite backend did up to
    Django 4.2. *)
Definition no_ranges : Ranges := λ _, (None, None).

(** The reported bounds admit [z]. *)
Definition column_holds (range : option Z * option Z) (z : Z) : Prop :=
  match range.1 with Some lo => lo ≤ z | None => True end
  ∧ match range.2 with Some hi => z ≤ hi | None => True end.

Definition has_bound (today : datetime.date) (k : ValidatorKind)
    (ok : Z → bool) (vs : list Validator) : bool :=
  existsb (λ v, match kind v, k with
                | MinValue, MinValue | MaxValue, MaxValue =>
                    ok (eval_limit today (limit_value v))
                | _, _ => false
                end) vs.

(** [IntegerField.validators]: the declared validators, then a
    [MinValueValidator] for the lower bound the backend reports unless a
    declared one is at least as strict, and the same for the upper bound. *)
Definition validators (ranges : Ranges) (today : datetime.date) (f : Field)
  : list Validator :=
  let vs := declared_validators f in
  let '(min_value, max_value) := ranges (internal_type f) in
  let vs_min :=
    match min_value with
    | Some lo =>
        if has_bound today MinValue (λ l, l >=? lo) vs then []
        else [MinValueValidator (LimitValue lo)]
    | None => []
    end in
  let vs_max :=
    match max_value with
    | Some hi =>
        if has_bound today MaxValue (λ l, l <=? hi) vs then []
        else [MaxValueValidator (LimitValue hi)]
    | None => []
    end in
  vs ++ vs_min ++ vs_max.

(** [Field.run_validators]: every validator is called and the errors are
    collected. *)
Definition run_validators (ranges : Ranges) (today : datetime.date)
    (f : Field) (value : Z) : list ErrorEntry :=
  concat (map (λ v, call_validator today v value)
            (validators ranges today f)).

(** [Field.clean] on an integer: the value, or [ValidationError] with the
    collected errors. *)
Definition clean (ranges : Ranges) (today : datetime.date) (f : Field)
    (value : Z) : Res Z :=
  match run_validators ranges today f value with
  | [] => Return value
  | errors => Raise (ValidationError errors)
  end.

(** ** The fields of models.py that carry validators *)

(** [Title.year]: the class body is run once, on the day the module is
    imported; [date.today().year] is evaluated there and the validator is
    built with the resulting number. *)
Definition Title_year (import_day : datetime.date) : Field :=
  {| internal_type := PositiveIntegerField;
     declared_validators :=
       [MaxValueValidator (LimitValue (datetime.year import_day))] |}.

(** [Review.score] *)
Definition Review_score : Field :=
  {| internal_type := IntegerField;
     declared_validators :=
       [MinValueValidator (LimitValue 1); MaxValueValidator (LimitValue 10)] |}.

(** ** The models: one record per table row *)

(** Rows are keyed by their primary key, an integer the framework manages.
    [User] comes from [get_user_model()]; only its primary keys matter
    here. *)

Module Category.
Record row := { name : string; slug : string }.
End Category.

Module Genre.
Record row := { name : string; slug : string }.
End Genre.

Module Title.
(** [genre] is many-to-many: its associations are the rows of the
    through table [title_genre] of [DB]. *)
Record row := {
  name : string;
  year : Z;
  description : string;
  category : option Z;
}.
Definition set_category (c : option Z) (t : row) : row :=
  {| name := name t; year := year t; description := description t;
     category := c |}.
End Title.

Module Review.
Record row := {
  title : Z;
  author : Z;
  text : string;
  score : Z;
  pub_date : Z;
}.
Definition set_pub_date (d : Z) (r : row) : row :=
  {| title := title r; author := author r; text := text r;
     score := score r; pub_date := d |}.
End Review.

Module Comment.
Record row := {
  author : Z;
  review : Z;
  text : string;
  pub_date : Z;
}.
Definition set_pub_date (d : Z) (c : row) : row :=
  {| author := author c; review := review c; text := text c;
     pub_date := d |}.
End Comment.

Record DB := {
  users : gset Z;
  categories : gmap Z Category.row;
  genres : gmap Z Genre.row;
  titles : gmap Z Title.row;
  title_genre : gset (Z * Z);
  reviews : gmap Z Review.row;
  comments : gmap Z Comment.row;
}.

Definition empty_db : DB :=
  {| users := ∅; categories := ∅; genres := ∅; titles := ∅;
     title_genre := ∅; reviews := ∅; comments := ∅ |}.

Definition set_users (f : gset Z → gset Z) (db : DB) : DB :=
  {| users := f (users db); categories := categories db;
     genres := genres db; titles := titles db;
     title_genre := title_genre db; reviews := reviews db;
     comments := comments db |}.
Definition set_categories (f : gmap Z Category.row → gmap Z Category.row)
    (db : DB) : DB :=
  {| users := users db; categories := f (categories db);
     genres := genres db; titles := titles db;
     title_genre := title_genre db; reviews := reviews db;
     comments := comments db |}.
Definition set_genres (f : gmap Z Genre.row → gmap Z Genre.row)
    (db : DB) : DB :=
  {| users := users db; categories := categories db;
     genres := f (genres db); titles := titles db;
     title_genre := title_genre db; reviews := reviews db;
     comments := comments db |}.
Definition set_titles (f : gmap Z Title.row → gmap Z Title.row)
    (db : DB) : DB :=
  {| users := users db; categories := categories db;
     genres := genres db; titles := f (titles db);
     title_genre := title_genre db; reviews := reviews db;
     comments := comments db |}.
Definition set_title_genre (f : gset (Z * Z) → gset (Z * Z))
    (db : DB) : DB :=
  {| users := users db; categories := categories db;
     genres := genres db; titles := titles db;
     title_genre := f (title_genre db); reviews := reviews db;
     comments := comments db |}.
Definition set_reviews (f : gmap Z Review.row → gmap Z Review.row)
    (db : DB) : DB :=
  {| users := users db; categories := categories db;
     genres := genres db; titles := titles db;
     title_genre := title_genre db; reviews := f (reviews db);
     comments := comments db |}.
Definition set_comments (f : gmap Z Comment.row → gmap Z Comment.row)
    (db : DB) : DB :=
  {| users := users db; categories := categories db;
     genres := genres db; titles := titles db;
     title_genre := title_genre db; reviews := reviews db;
     comments := f (comments db) |}.

(** ** Constraints of the schema *)

Definition has_row {A} (m : gmap Z A) (pk : Z) : bool :=
  bool_decide (is_Some (m !! pk)).

(** A foreign key column must name a row of the table it references. *)
Definition foreign_key {A} (m : gmap Z A) (pk : Z) : Res unit :=
  if has_row m pk then Return () else Raise (IntegrityError "FOREIGN KEY").

Definition check (name : string) (b : bool) : Res unit :=
  if b then Return () else Raise (IntegrityError name).

(** [unique=True] on [slug] (Category and Genre): no other row has it. *)
Definition unique_category_slug (db : DB) (pk : Z) (c : Category.row) : bool :=
  bool_decide (map_Forall (λ pk' c',
    pk' = pk ∨ Category.slug c' ≠ Category.slug c) (categories db)).
Definition unique_genre_slug (db : DB) (pk : Z) (g : Genre.row) : bool :=
  bool_decide (map_Forall (λ pk' g',
    pk' = pk ∨ Genre.slug g' ≠ Genre.slug g) (genres db)).

(** [UniqueConstraint(fields=["author", "title"],
    name="unique_author_title_pair")] of Review: no other row has the same
    author and the same title as the row written under [pk]. *)
Definition unique_author_title_pair (db : DB) (pk : Z) (r : Review.row)
  : bool :=
  bool_decide (map_Forall (λ pk' r',
    pk' = pk ∨ ¬ (Review.author r' = Review.author r
                  ∧ Review.title r' = Review.title r)) (reviews db)).

(** ** The check constraint of Comment *)

(** A condition [~Q(lhs=F(rhs))]; the reference [rhs] is held as its
    parts, the name split at [LOOKUP_SEP] (the double underscore). *)
Record CheckConstraint := {
  check_lhs : string;
  check_rhs : list string;
  constraint_name : string;
}.

(** [CheckConstraint(check=~models.Q(author=models.F("review__author")),
    name="self_commenting_check")] *)
Definition self_commenting_check : CheckConstraint :=
  {| check_lhs := "author"; check_rhs := ["review"; "author"];
     constraint_name := "self_commenting_check" |}.

(** [Comment.Meta.constraints] *)
Definition Comment_constraints : list CheckConstraint :=
  [self_commenting_check].

(** The columns of the Comment table a condition can compare. *)
Definition Comment_column (name : string) : option (Comment.row → Z) :=
  if String.eqb name "author" then Some Comment.author
  else if String.eqb name "review" then Some Comment.review
  else None.

(** [Query.resolve_ref(name, allow_joins=False)], as the condition of a
    check constraint is built: a column of the table itself is resolved; a
    reference through a relation would need a join, and joined field
    references are not permitted there ([FieldError]), as for a name that
    is no field. *)
Definition resolve_ref (field_list : list string)
  : Res (Comment.row → Z) :=
  match field_list with
  | [name] =>
      match Comment_column name with
      | Some column => Return column
      | None => Raise FieldError
      end
  | _ => Raise FieldError
  end.

(** [CheckConstraint.constraint_sql]: the condition on the row written,
    when it can be rendered. *)
Definition constraint_sql (k : CheckConstraint)
  : Res (Comment.row → bool) :=
  lhs ← resolve_ref [check_lhs k];
  rhs ← resolve_ref (check_rhs k);
  Return (λ c, negb (lhs c =? rhs c)).

(** The checks a Comment table carries.  The schema editor renders every
    declared constraint when it creates the table and raises on one it
    cannot render, so a Comment table exists only where it was created
    without such a constraint: its checks are the rendered ones. *)
Definition table_checks (ks : list CheckConstraint)
  : list (string * (Comment.row → bool)) :=
  flat_map (λ k, match constraint_sql k with
                 | Return condition => [(constraint_name k, condition)]
                 | Raise _ => []
                 end) ks.

Definition Comment_checks : list (string * (Comment.row → bool)) :=
  table_checks Comment_constraints.

Fixpoint run_checks (checks : list (string * (Comment.row → bool)))
    (c : Comment.row) : Res unit :=
  match checks with
  | [] => Return ()
  | (name, condition) :: rest =>
      check name (condition c);; run_checks rest c
  end.

(** ** Writing and deleting rows *)

(** [save()] of an instance with primary key [pk]: an UPDATE when the table
    has that row, an INSERT otherwise; the database refuses the write when a
    constraint of the table is violated.  [auto_now_add] sets [pub_date] to
    the time of the INSERT.  [save()] does not run the field validators:
    those belong to [clean] above.  The width of a column is not part of the
    model (see [in_integer_column]). *)

Definition create_user (pk : Z) (db : DB) : Res DB :=
  Return (set_users (λ s, {[pk]} ∪ s) db).

Definition save_category (pk : Z) (c : Category.row) (db : DB) : Res DB :=
  check "reviews_category_slug_key" (unique_category_slug db pk c);;
  Return (set_categories <[pk := c]> db).

Definition save_genre (pk : Z) (g : Genre.row) (db : DB) : Res DB :=
  check "reviews_genre_slug_key" (unique_genre_slug db pk g);;
  Return (set_genres <[pk := g]> db).

Definition save_title (pk : Z) (t : Title.row) (db : DB) : Res DB :=
  match Title.category t with
  | Some c => foreign_key (categories db) c
  | None => Return ()
  end;;
  check "reviews_title_year_check" (0 <=? Title.year t);;
  Return (set_titles <[pk := t]> db).

(** [title.genre.add(genre)] and [title.genre.remove(genre)] *)
Definition genre_add (t g : Z) (db : DB) : Res DB :=
  foreign_key (titles db) t;;
  foreign_key (genres db) g;;
  Return (set_title_genre (λ s, {[(t, g)]} ∪ s) db).

Definition genre_remove (t g : Z) (db : DB) : Res DB :=
  Return (set_title_genre (λ s, s ∖ {[(t, g)]}) db).

Definition save_review (now : Z) (pk : Z) (r : Review.row) (db : DB)
  : Res DB :=
  foreign_key (titles db) (Review.title r);;
  check "FOREIGN KEY" (bool_decide (Review.author r ∈ users db));;
  check "unique_author_title_pair" (unique_author_title_pair db pk r);;
  let r' := if has_row (reviews db) pk then r
            else Review.set_pub_date now r in
  Return (set_reviews <[pk := r']> db).

Definition save_comment (now : Z) (pk : Z) (c : Comment.row) (db : DB)
  : Res DB :=
  foreign_key (reviews db) (Comment.review c);;
  check "FOREIGN KEY" (bool_decide (Comment.author c ∈ users db));;
  run_checks Comment_checks c;;
  let c' := if has_row (comments db) pk then c
            else Comment.set_pub_date now c in
  Return (set_comments <[pk := c']> db).

(** [on_delete=models.CASCADE] from Comment to Review: deleting the reviews
    that satisfy [P] collects the comments on them and deletes both. *)
Definition delete_reviews (P : Z → Review.row → bool) (db : DB) : DB :=
  let collected := filter (λ kr, P kr.1 kr.2) (reviews db) in
  set_comments (filter (λ kc, collected !! Comment.review kc.2 = None))
    (set_reviews (filter (λ kr, ¬ P kr.1 kr.2)) db).

Definition delete_review (pk : Z) (db : DB) : Res DB :=
  Return (delete_reviews (λ k _, bool_decide (k = pk)) db).

Definition delete_comment (pk : Z) (db : DB) : Res DB :=
  Return (set_comments (delete pk) db).

(** [on_delete=models.CASCADE] from Review to Title; the rows of the
    through table of [genre] go with their title. *)
Definition delete_title (pk : Z) (db : DB) : Res DB :=
  Return (set_titles (delete pk)
           (set_title_genre (filter (λ tg, tg.1 ≠ pk))
             (delete_reviews (λ _ r, bool_decide (Review.title r = pk)) db))).

(** [on_delete=models.CASCADE] from Review and Comment to their author. *)
Definition delete_user (pk : Z) (db : DB) : Res DB :=
  Return (set_users (λ s, s ∖ {[pk]})
           (set_comments (filter (λ kc, Comment.author kc.2 ≠ pk))
             (delete_reviews (λ _ r, bool_decide (Review.author r = pk)) db))).

(** [on_delete=models.SET_NULL] from Title to Category. *)
Definition null_category (pk : Z) (t : Title.row) : Title.row :=
  if decide (Title.category t = Some pk) then Title.set_category None t
  else t.

Definition delete_category (pk : Z) (db : DB) : Res DB :=
  Return (set_categories (delete pk)
           (set_titles (fmap (null_category pk)) db)).

Definition delete_genre (pk : Z) (db : DB) : Res DB :=
  Return (set_genres (delete pk)
           (set_title_genre (filter (λ tg, tg.2 ≠ pk)) db)).

(** The operations on the database, and the states they reach. *)
Inductive Op :=
| CreateUser (pk : Z)
| DeleteUser (pk : Z)
| SaveCategory (pk : Z) (c : Category.row)
| DeleteCategory (pk : Z)
| SaveGenre (pk : Z) (g : Genre.row)
| DeleteGenre (pk : Z)
| SaveTitle (pk : Z) (t : Title.row)
| DeleteTitle (pk : Z)
| GenreAdd (t g : Z)
| GenreRemove (t g : Z)
| SaveReview (now pk : Z) (r : Review.row)
| DeleteReview (pk : Z)
| SaveComment (now pk : Z) (c : Comment.row)
| DeleteComment (pk : Z).

Definition exec (op : Op) (db : DB) : Res DB :=
  match op with
  | CreateUser pk => create_user pk db
  | DeleteUser pk => delete_user pk db
  | SaveCategory pk c => save_category pk c db
  | DeleteCategory pk => delete_category pk db
  | SaveGenre pk g => save_genre pk g db
  | DeleteGenre pk => delete_genre pk db
  | SaveTitle pk t => save_title pk t db
  | DeleteTitle pk => delete_title pk db
  | GenreAdd t g => genre_add t g db
  | GenreRemove t g => genre_remove t g db
  | SaveReview now pk r => save_review now pk r db
  | DeleteReview pk => delete_review pk db
  | SaveComment now pk c => save_comment now pk c db
  | DeleteComment pk => delete_comment pk db
  end.

(** The state after an operation: a refused write changes nothing. *)
Definition apply_op (op : Op) (db : DB) : DB :=
  match exec op db with
  | Return db' => db'
  | Raise _ => db
  end.

Definition run (ops : list Op) (db : DB) : DB :=
  foldl (λ d op, apply_op op d) db ops.

Inductive reachable : DB → Prop :=
| reachable_empty : reachable empty_db
| reachable_step op db db' :
    reachable db → exec op db = Return db' → reachable db'.

(** ** Review.get_mean_score *)

(** [get_object_or_404(Title, pk=title_id)] *)
Definition get_object_or_404 (db : DB) (pk : Z) : Res (Z * Title.row) :=
  match titles db !! pk with
  | Some t => Return (pk, t)
  | None => Raise Http404
  end.

(** [Review.objects.filter(title=title)] *)
Definition filter_title (db : DB) (title : Z * Title.row)
  : list (Z * Review.row) :=
  map_to_list (filter (λ kr, Review.title kr.2 = title.1) (reviews db)).

Definition scores (qs : list (Z * Review.row)) : list Z :=
  map (λ kr, Review.score kr.2) qs.

(** [Avg("score")]: SQL's AVG, [None] over no rows. *)
Definition Avg_score (qs : list (Z * Review.row)) : PyVal :=
  match qs with
  | [] => PyNone
  | _ => PyFloat (Qdiv (inject_Z (foldr Z.add 0 (scores qs)))
                        (inject_Z (Z.of_nat (length qs))))
  end.

(** [queryset.aggregate(models.Avg("score"))] returns a dictionary with the
    aggregate under its default alias. *)
Definition aggregate_Avg_score (qs : list (Z * Review.row)) : PyVal :=
  PyDict [("score__avg", Avg_score qs)].

Definition get_mean_score (db : DB) (title_id : Z) : Res PyVal :=
  title ← get_object_or_404 db title_id;
  try_except
    (round (aggregate_Avg_score (filter_title db title)))
    (Return (PyInt 0)).

(** ** Properties of a database state *)

(** Every Review names an existing Title and author, every Comment an
    existing Review and author. *)
Definition review_refs (db : DB) : Prop :=
  map_Forall (λ _ r, is_Some (titles db !! Review.title r)
                     ∧ Review.author r ∈ users db) (reviews db).
Definition comment_refs (db : DB) : Prop :=
  map_Forall (λ _ c, is_Some (reviews db !! Comment.review c)
                     ∧ Comment.author c ∈ users db) (comments db).
Definition referential_integrity (db : DB) : Prop :=
  review_refs db ∧ comment_refs db.

(** No two Review rows have the same author and the same title. *)
Definition review_pairs_unique (db : DB) : Prop :=
  ∀ pk1 pk2 r1 r2,
    reviews db !! pk1 = Some r1 → reviews db !! pk2 = Some r2 →
    Review.author r1 = Review.author r2 →
    Review.title r1 = Review.title r2 → pk1 = pk2.

(** No Comment row has the author of the Review it comments on. *)
Definition no_self_comment (db : DB) : Prop :=
  ∀ pk c r,
    comments db !! pk = Some c → reviews db !! Comment.review c = Some r →
    Comment.author c ≠ Review.author r.

(** ** Sample data *)

Module Sample.
Definition new_years_eve : datetime.date :=
  {| datetime.year := 2023; datetime.month := 12; datetime.day := 31 |}.
Definition new_years_day : datetime.date :=
  {| datetime.year := 2024; datetime.month := 1; datetime.day := 1 |}.

Definition dune : Title.row :=
  {| Title.name := "Dune"; Title.year := 1965; Title.description := "novel";
     Title.category := None |}.
(** A review of title 10. *)
Definition review_by (author score : Z) : Review.row :=
  {| Review.title := 10; Review.author := author; Review.text := "good";
     Review.score := score; Review.pub_date := 0 |}.
(** A comment on review 100. *)
Definition comment_by (author : Z) : Comment.row :=
  {| Comment.author := author; Comment.review := 100; Comment.text := "ok";
     Comment.pub_date := 0 |}.

(** Two users, one title, one review of it by user 1. *)
Definition reviewed : list Op :=
  [CreateUser 1; CreateUser 2; SaveTitle 10 dune;
   SaveReview 5 100 (review_by 1 7)].
(** ... then a second review, by user 2. *)
Definition reviewed_twice : list Op :=
  reviewed ++ [SaveReview 6 101 (review_by 2 9)].
(** ... or a comment on the first review by its own author, user 1. *)
Definition self_commented : list Op :=
  reviewed ++ [SaveComment 6 1000 (comment_by 1)].
End Sample.

(** ** Character fields: Category.slug and Genre.slug *)

(** A [str] is held as a [string], one character per code point below
    256.  [validate_slug] is the regular expression
    [^[-a-zA-Z0-9_]+\Z]: one or more letters, digits, hyphens or
    underscores, and nothing else. *)
Definition slug_char (a : Ascii.ascii) : bool :=
  let n := Ascii.N_of_ascii a in
  ((97 <=? n) && (n <=? 122) || (65 <=? n) && (n <=? 90)
   || (48 <=? n) && (n <=? 57) || (n =? 45) || (n =? 95))%N.

Fixpoint all_slug_chars (s : string) : bool :=
  match s with
  | EmptyString => true
  | String a s' => slug_char a && all_slug_chars s'
  end.

Definition slug_re_match (s : string) : bool :=
  match s with
  | EmptyString => false
  | String _ _ => all_slug_chars s
  end.

Inductive StrValidator :=
| validate_slug
| MaxLengthValidator (limit : nat).

(** The codes of the errors a validator raises on [value]. *)
Definition call_str_validator (v : StrValidator) (value : string)
  : list string :=
  match v with
  | validate_slug => if slug_re_match value then [] else ["invalid"]
  | MaxLengthValidator limit =>
      if (limit <? String.length value)%nat then ["max_length"] else []
  end.

Record CharField := {
  max_length : nat;
  blank : bool;
  default_validators : list StrValidator;
  given_validators : list StrValidator;
}.

(** [Field.validators] is the class's [default_validators] followed by the
    [validators] argument; [CharField.__init__] appends the validator of
    [max_length]. *)
Definition char_validators (f : CharField) : list StrValidator :=
  default_validators f ++ given_validators f
  ++ [MaxLengthValidator (max_length f)].

Definition empty_value (s : string) : bool :=
  match s with
  | EmptyString => true
  | String _ _ => false
  end.

(** [Field.clean] on a string: [validate] refuses an empty value unless
    [blank], then [run_validators] (which skips an empty value) collects the
    errors of every validator.  The result is the list of error codes of the
    [ValidationError] raised, empty when the value is accepted. *)
Definition clean_errors (f : CharField) (value : string) : list string :=
  if empty_value value then (if blank f then [] else ["blank"])
  else concat (map (λ v, call_str_validator v value) (char_validators f)).

(** [models.SlugField(max_length=..., validators=...)]: the class has
    [default_validators = [validate_slug]]. *)
Definition SlugField (max_length : nat) (given : list StrValidator)
  : CharField :=
  {| max_length := max_length; blank := false;
     default_validators := [validate_slug]; given_validators := given |}.

Definition Category_slug : CharField := SlugField 50 [validate_slug].
Definition Genre_slug : CharField := SlugField 50 [validate_slug].

(** The characters [validate_slug] admits. *)
Definition slug_alphabet : string :=
  "abcdefghijklmnopqrstuvwxyzABCDEFGHIJKLMNOPQRSTUVWXYZ0123456789-_".

(** ** Further properties of a database state *)

(** A Title's category, when not null, names an existing Category; an
    association of the [genre] relation joins an existing Title and an
    existing Genre. *)
Definition title_refs (db : DB) : Prop :=
  map_Forall (λ _ t, ∀ c, Title.category t = Some c →
                          is_Some (categories db !! c)) (titles db).
Definition title_genre_refs (db : DB) : Prop :=
  ∀ t g, (t, g) ∈ title_genre db →
         is_Some (titles db !! t) ∧ is_Some (genres db !! g).

(** No two Category rows, and no two Genre rows, have the same slug. *)
Definition category_slugs_unique (db : DB) : Prop :=
  ∀ k1 k2 c1 c2,
    categories db !! k1 = Some c1 → categories db !! k2 = Some c2 →
    Category.slug c1 = Category.slug c2 → k1 = k2.
Definition genre_slugs_unique (db : DB) : Prop :=
  ∀ k1 k2 g1 g2,
    genres db !! k1 = Some g1 → genres db !! k2 = Some g2 →
    Genre.slug g1 = Genre.slug g2 → k1 = k2.

(** Every stored Title has a year that is not negative. *)
Definition years_not_negative (db : DB) : Prop :=
  map_Forall (λ _ t, 0 ≤ Title.year t) (titles db).

(** The Review rows of a Title ([title.reviews], the [related_name] of
    [Review.title]). *)
Definition reviews_of (db : DB) (title_pk : Z) : gmap Z Review.row :=
  filter (λ kr, Review.title kr.2 = title_pk) (reviews db).

(** The row [r] with another score. *)
Definition with_score (s : Z) (r : Review.row) : Review.row :=
  {| Review.title := Review.title r; Review.author := Review.author r;
     Review.text := Review.text r; Review.score := s;
     Review.pub_date := Review.pub_date r |}.

(** The values the column of an [IntegerField], and of a key, holds on
    every backend (32 bits).  The saves below do not model the width of a
    column: a value outside it, which a database refuses with a
    [DataError] of its own, is outside the model, and a theorem that
    promises a successful save is stated for values inside. *)
Definition in_integer_column (z : Z) : Prop :=
  -2147483648 ≤ z ≤ 2147483647.

(** ** More sample data *)

Module Scenario.
(** Two users and one title, no review yet. *)
Definition titled : list Op :=
  [CreateUser 1; CreateUser 2; SaveTitle 10 Sample.dune].
End Scenario.

(** * Properties *)

(** ** Results *)

Lemma try_except_returns {A} (body : Res A) (a : A) :
  ∃ a', try_except body (Return a) = Return a'.
Proof. destruct body; simpl; eauto. Qed.

Lemma check_Return name b : check name b = Return () ↔ b = true.
Proof. destruct b; simpl; split; congruence. Qed.

(** ** Validators *)

Section validators.
Variables (ranges : Ranges) (today import_day : datetime.date).

Lemma run_validators_Review_score s :
  run_validators ranges today Review_score s =
    (if s <? 1 then [min_value_error 1 s] else [])
    ++ (if s >? 10 then [max_value_error 10 s] else [])
    ++ match (ranges IntegerField).1 with
       | Some lo => if 1 >=? lo then []
                    else if s <? lo then [min_value_error lo s] else []
       | None => []
       end
    ++ match (ranges IntegerField).2 with
       | Some hi => if 10 <=? hi then []
                    else if s >? hi then [max_value_error hi s] else []
       | None => []
       end.
Proof.
  unfold run_validators, validators, call_validator.
  change (internal_type Review_score) with IntegerField.
  destruct (ranges IntegerField) as [[lo|] [hi|]]; simpl;
    rewrite ?orb_false_r;
    repeat match goal with
           | |- context [if ?b then _ else _] => destruct b; simpl
           end; reflexivity.
Qed.

Lemma run_validators_Title_year y :
  let limit := datetime.year import_day in
  run_validators ranges today (Title_year import_day) y =
    (if y >? limit then [max_value_error limit y] else [])
    ++ match (ranges PositiveIntegerField).1 with
       | Some lo => if y <? lo then [min_value_error lo y] else []
       | None => []
       end
    ++ match (ranges PositiveIntegerField).2 with
       | Some hi => if limit <=? hi then []
                    else if y >? hi then [max_value_error hi y] else []
       | None => []
       end.
Proof.
  unfold run_validators, validators, call_validator.
  change (internal_type (Title_year import_day))
    with PositiveIntegerField.
  destruct (ranges PositiveIntegerField) as [[lo|] [hi|]]; simpl;
    rewrite ?orb_false_r;
    repeat match goal with
           | |- context [if ?b then _ else _] => destruct b; simpl
           end; reflexivity.
Qed.

Lemma clean_spec f y :
  (clean ranges today f y = Return y ↔ run_validators ranges today f y = [])
  ∧ ((∃ errors, clean ranges today f y = Raise (ValidationError errors))
     ↔ run_validators ranges today f y ≠ []).
Proof.
  unfold clean. destruct (run_validators ranges today f y) as [|e errors].
  - split; split; try done. intros [? ?]; discriminate.
  - split; split; try done. eauto.
Qed.
End validators.

(** C4: the validators of [Review.score] accept an integer score [s] if and
    only if [1 <= s <= 10]: cleaning a score in the interval returns it, and
    cleaning any other score raises a [ValidationError].  This holds on
    every backend whose integer column holds the scores 1 and 10. *)
Theorem Review_score_accepts_iff
    (ranges : Ranges) (today : datetime.date) (s : Z) :
  column_holds (ranges IntegerField) 1 →
  column_holds (ranges IntegerField) 10 →
  (clean ranges today Review_score s = Return s ↔ 1 ≤ s ≤ 10)
  ∧ ((∃ errors,
        clean ranges today Review_score s = Raise (ValidationError errors))
     ↔ ¬ (1 ≤ s ≤ 10)).
Proof.
  unfold column_holds. intros [Hlo _] [_ Hhi].
  destruct (clean_spec ranges today Review_score s) as [-> ->].
  rewrite run_validators_Review_score.
  destruct (ranges IntegerField) as [[lo|] [hi|]]; simpl in *;
    repeat match goal with
           | |- context [1 >=? ?lo] =>
               destruct (Z.geb_spec 1 lo); [|lia]
           | |- context [10 <=? ?hi] =>
               destruct (Z.leb_spec 10 hi); [|lia]
           end;
    destruct (Z.ltb_spec s 1), (Z.gtb_spec s 10); simpl; split; split;
    intros; try discriminate; try lia; try done.
Qed.

Lemma Review_score_accepts_iff_witness :
  column_holds (base_ranges IntegerField) 1
  ∧ column_holds (base_ranges IntegerField) 10
  ∧ (clean base_ranges Sample.new_years_day Review_score 11 = Return 11
     ↔ 1 ≤ 11 ≤ 10)
  ∧ ((∃ errors,
        clean base_ranges Sample.new_years_day Review_score 11
        = Raise (ValidationError errors))
     ↔ ¬ (1 ≤ 11 ≤ 10)).
Proof.
  assert (H1 : column_holds (base_ranges IntegerField) 1)
    by (split; simpl; lia).
  assert (H10 : column_holds (base_ranges IntegerField) 10)
    by (split; simpl; lia).
  split; [exact H1|]. split; [exact H10|].
  exact (Review_score_accepts_iff base_ranges Sample.new_years_day 11
           H1 H10).
Defined.

(** On the two backends at hand the condition on the column holds,
    whatever the day and the score. *)
Lemma Review_score_accepts_iff_known_backends
    (ranges : Ranges) (today : datetime.date) (s : Z) :
  ranges = base_ranges ∨ ranges = no_ranges →
  (clean ranges today Review_score s = Return s ↔ 1 ≤ s ≤ 10)
  ∧ ((∃ errors,
        clean ranges today Review_score s = Raise (ValidationError errors))
     ↔ ¬ (1 ≤ s ≤ 10)).
Proof.
  intros Hranges.
  destruct (clean_spec ranges today Review_score s) as [-> ->].
  rewrite run_validators_Review_score.
  destruct Hranges as [-> | ->]; simpl;
    destruct (Z.ltb_spec s 1), (Z.gtb_spec s 10); simpl; split; split;
    intros; try discriminate; try lia; try done.
Qed.

(** The bound of the year is the year of the import: on a backend whose
    column holds 0 and that year, validation refuses every year above the
    year of the import and accepts every year from 0 up to it. *)
Lemma Title_year_bounded_by_import_year
    (ranges : Ranges) (import_day today : datetime.date) (y : Z) :
  column_holds (ranges PositiveIntegerField) 0 →
  column_holds (ranges PositiveIntegerField) (datetime.year import_day) →
  (y > datetime.year import_day →
     ∃ errors,
       clean ranges today (Title_year import_day) y
       = Raise (ValidationError errors)
       ∧ max_value_error (datetime.year import_day) y ∈ errors)
  ∧ (0 ≤ y ≤ datetime.year import_day →
     clean ranges today (Title_year import_day) y = Return y).
Proof.
  unfold column_holds. intros [Hlo _] [_ Hhi].
  unfold clean. rewrite run_validators_Title_year.
  destruct (ranges PositiveIntegerField) as [[lo|] [hi|]]; simpl in *;
    repeat match goal with
           | |- context [datetime.year import_day <=? ?hi] =>
               destruct (Z.leb_spec (datetime.year import_day) hi); [|lia]
           | |- context [y <? ?lo] => destruct (Z.ltb_spec y lo)
           end;
    destruct (Z.gtb_spec y (datetime.year import_day)); simpl;
    split; intros; try lia; try done;
    eexists; (split; [reflexivity | rewrite ?elem_of_cons; auto]).
Qed.

(** C6: the module is imported on 31 December 2023 and a Title is validated
    on 1 January 2024.  The current year is 2024, the year 2024 does not
    exceed it, and the validation refuses it, with the error of the limit
    2023 computed at the import; on every backend. *)
Theorem Title_year_refuses_the_new_year (ranges : Ranges) :
  datetime.year Sample.new_years_day = 2024
  ∧ ∃ errors,
      clean ranges Sample.new_years_day (Title_year Sample.new_years_eve)
        2024
      = Raise (ValidationError errors)
      ∧ max_value_error 2023 2024 ∈ errors.
Proof.
  split; [reflexivity|].
  unfold clean. rewrite run_validators_Title_year.
  change (datetime.year Sample.new_years_eve) with 2023.
  change (2024 >? 2023) with true. cbn [app].
  eexists. split; [reflexivity | apply elem_of_cons; by left].
Qed.

(** The column of a [PositiveIntegerField] carries the lower bound 0: the
    database refuses a Title row with a negative year. *)
Lemma save_title_negative_year_raises pk t db :
  Title.year t < 0 → raises (exec (SaveTitle pk t) db).
Proof.
  intros Hneg. simpl. unfold save_title.
  destruct (Z.leb_spec 0 (Title.year t)); [lia|].
  by destruct (match Title.category t with
               | Some c => foreign_key (categories db) c
               | None => Return ()
               end).
Qed.

(** C9, as stated, fails: on a backend that reports no bounds the field
    gets no [MinValueValidator], and the validation returns a negative
    year. *)
Lemma Title_year_accepts_negative_without_ranges :
  clean no_ranges Sample.new_years_day (Title_year Sample.new_years_eve)
    (-1)
  = Return (-1).
Proof. reflexivity. Qed.

(** C9, amended: on a backend that reports 0 as the lower bound of the
    column of a [PositiveIntegerField], the validation of [Title.year]
    refuses every negative year, with the [min_value] error of the bound
    0.  On a backend that reports no bounds the validation accepts every
    year up to the year of the import, the negative ones too.  On every
    backend the column refuses a Title with a negative year when it is
    saved, and the state stays as it was. *)
Theorem Title_year_rejects_negative :
  (∀ (ranges : Ranges) (import_day today : datetime.date) (y : Z),
     (ranges PositiveIntegerField).1 = Some 0 → y < 0 →
     ∃ errors,
       clean ranges today (Title_year import_day) y
       = Raise (ValidationError errors)
       ∧ min_value_error 0 y ∈ errors)
  ∧ (∀ (import_day today : datetime.date) (y : Z),
       y ≤ datetime.year import_day →
       clean no_ranges today (Title_year import_day) y = Return y)
  ∧ (∀ db pk t,
       Title.year t < 0 →
       raises (exec (SaveTitle pk t) db)
       ∧ apply_op (SaveTitle pk t) db = db).
Proof.
  split; [|split].
  - intros ranges import_day today y Hlo Hneg.
    unfold clean. rewrite run_validators_Title_year. rewrite Hlo.
    destruct (Z.ltb_spec y 0); [|lia].
    destruct (y >? datetime.year import_day); cbn [app];
      eexists; (split; [reflexivity | rewrite ?elem_of_cons; auto]).
  - intros import_day today y Hle.
    unfold clean. rewrite run_validators_Title_year. simpl.
    destruct (Z.gtb_spec y (datetime.year import_day)); [lia | done].
  - intros db pk t Hneg.
    pose proof (save_title_negative_year_raises pk t db Hneg) as Hr.
    split; [done|]. unfold apply_op.
    by destruct (exec (SaveTitle pk t) db).
Qed.

(** C10: the upper bound of the year validator is the year of the day the
    model class was defined.  The day of a validation plays no part: on
    every backend two validations of the same value on any two days agree,
    and the [max_value] error of that limit is raised exactly by the years
    above the year of the definition. *)
Theorem Title_year_limit_fixed_at_import
    (ranges : Ranges) (import_day : datetime.date) :
  (∀ d1 d2 y,
     clean ranges d1 (Title_year import_day) y
     = clean ranges d2 (Title_year import_day) y)
  ∧ (∀ today y,
       max_value_error (datetime.year import_day) y
         ∈ run_validators ranges today (Title_year import_day) y
       ↔ y > datetime.year import_day).
Proof.
  split.
  - intros d1 d2 y. unfold clean. by rewrite !run_validators_Title_year.
  - intros today y. rewrite run_validators_Title_year. cbv zeta.
    unfold max_value_error, min_value_error.
    destruct (ranges PositiveIntegerField) as [[lo|] [hi|]]; cbn [fst snd];
      repeat match goal with
             | |- context [?a >? ?b] => destruct (Z.gtb_spec a b)
             | |- context [?a <? ?b] => destruct (Z.ltb_spec a b)
             | |- context [?a <=? ?b] => destruct (Z.leb_spec a b)
             end; cbn [app];
      rewrite ?elem_of_cons, ?elem_of_nil; split; intros; try lia;
      try (by left);
      repeat match goal with
             | H : _ ∨ _ |- _ => destruct H
             | H : False |- _ => destruct H
             | H : {| code := _ |} = _ |- _ => injection H as ?
             end; try discriminate; try lia.
Qed.

(** ** get_mean_score *)

(** Whatever the queryset holds, [round] is handed the dictionary that
    [aggregate] returns, and raises. *)
Lemma round_aggregate_raises qs :
  round (aggregate_Avg_score qs) = Raise TypeError.
Proof. reflexivity. Qed.

Lemma get_mean_score_existing db title_id t :
  titles db !! title_id = Some t →
  get_mean_score db title_id = Return (PyInt 0).
Proof.
  intros Ht. unfold get_mean_score, get_object_or_404. rewrite Ht.
  change (try_except (round (aggregate_Avg_score
            (filter_title db (title_id, t)))) (Return (PyInt 0))
          = Return (PyInt 0)).
  by rewrite round_aggregate_raises.
Qed.

Lemma get_mean_score_missing db title_id :
  titles db !! title_id = None →
  get_mean_score db title_id = Raise Http404.
Proof.
  intros Ht. unfold get_mean_score, get_object_or_404. by rewrite Ht.
Qed.

(** C1: on a database where title 10 has two reviews, with scores 7 and 9,
    the rounded mean of the scores is 8, and [get_mean_score] returns 0. *)
Theorem get_mean_score_of_two_reviews :
  let db := run Sample.reviewed_twice empty_db in
  titles db !! 10 = Some Sample.dune
  ∧ scores (filter_title db (10, Sample.dune)) ≡ₚ [7; 9]
  ∧ round (Avg_score (filter_title db (10, Sample.dune)))
    = Return (PyInt 8)
  ∧ get_mean_score db 10 = Return (PyInt 0).
Proof.
  repeat split; try (vm_compute; reflexivity).
  assert (Hs : scores (filter_title (run Sample.reviewed_twice empty_db)
                         (10, Sample.dune)) = [7; 9]
               ∨ scores (filter_title (run Sample.reviewed_twice empty_db)
                           (10, Sample.dune)) = [9; 7])
    by (vm_compute; auto).
  destruct Hs as [-> | ->]; [done | apply Permutation_swap].
Qed.

(** C2, as stated, fails: with no Title under the key, the exception of
    [get_object_or_404] leaves the method. *)
Lemma get_mean_score_propagates_Http404 :
  get_mean_score empty_db 1 = Raise Http404.
Proof. reflexivity. Qed.

(** C2, amended: for the key of an existing Title the method raises nothing
    and returns 0 (the exception raised inside [try] is caught); for any
    other key the [Http404] of [get_object_or_404], which is called before
    the [try], is propagated. *)
Theorem get_mean_score_exceptions (db : DB) (title_id : Z) :
  match titles db !! title_id with
  | Some _ => get_mean_score db title_id = Return (PyInt 0)
  | None => get_mean_score db title_id = Raise Http404
  end.
Proof.
  destruct (titles db !! title_id) as [t|] eqn:Ht.
  - by eapply get_mean_score_existing.
  - by apply get_mean_score_missing.
Qed.

(** ** Writes and deletes *)

Lemma bind_Return {A B} (m : Res A) (k : A → Res B) (b : B) :
  m ≫= k = Return b ↔ ∃ a, m = Return a ∧ k a = Return b.
Proof.
  destruct m as [a|e]; simpl; split.
  - eauto.
  - by intros (a' & [= <-] & Hk).
  - discriminate.
  - by intros (a' & [=] & _).
Qed.

Lemma has_row_true {A} (m : gmap Z A) pk :
  has_row m pk = true ↔ is_Some (m !! pk).
Proof. unfold has_row. by rewrite bool_decide_eq_true. Qed.

Lemma foreign_key_Return {A} (m : gmap Z A) pk :
  foreign_key m pk = Return () ↔ is_Some (m !! pk).
Proof.
  unfold foreign_key. rewrite <- has_row_true.
  destruct (has_row m pk); split; congruence.
Qed.

Lemma save_review_Return now pk r db db' :
  save_review now pk r db = Return db' ↔
    is_Some (titles db !! Review.title r)
    ∧ Review.author r ∈ users db
    ∧ unique_author_title_pair db pk r = true
    ∧ db' = set_reviews
              <[pk := if has_row (reviews db) pk then r
                      else Review.set_pub_date now r]> db.
Proof.
  unfold save_review. rewrite !bind_Return. split.
  - intros ([] & Hfk & H). rewrite bind_Return in H.
    destruct H as ([] & Hau & H). rewrite bind_Return in H.
    destruct H as ([] & Huq & [= <-]).
    apply foreign_key_Return in Hfk. apply check_Return in Hau, Huq.
    apply bool_decide_eq_true in Hau. done.
  - intros (Hfk & Hau & Huq & ->). exists (). split.
    { by apply foreign_key_Return. }
    apply bind_Return. exists (). split.
    { apply check_Return. by apply bool_decide_eq_true. }
    apply bind_Return. exists (). split; [by apply check_Return | done].
Qed.

Lemma Comment_checks_nil : Comment_checks = [].
Proof. reflexivity. Qed.

Lemma save_comment_Return now pk c db db' :
  save_comment now pk c db = Return db' ↔
    is_Some (reviews db !! Comment.review c)
    ∧ Comment.author c ∈ users db
    ∧ db' = set_comments
              <[pk := if has_row (comments db) pk then c
                      else Comment.set_pub_date now c]> db.
Proof.
  unfold save_comment. rewrite Comment_checks_nil. cbn [run_checks].
  rewrite !bind_Return. split.
  - intros ([] & Hfk & H). rewrite bind_Return in H.
    destruct H as ([] & Hau & H). rewrite bind_Return in H.
    destruct H as ([] & _ & [= <-]).
    apply foreign_key_Return in Hfk. apply check_Return in Hau.
    apply bool_decide_eq_true in Hau. done.
  - intros (Hfk & Hau & ->). exists (). split.
    { by apply foreign_key_Return. }
    apply bind_Return. exists (). split.
    { apply check_Return. by apply bool_decide_eq_true. }
    apply bind_Return. exists (). split; done.
Qed.

(** The row a save stores has the keys of the row it was given. *)
Lemma stored_review_keys (b : bool) now r :
  let r' := if b then r else Review.set_pub_date now r in
  Review.title r' = Review.title r ∧ Review.author r' = Review.author r.
Proof. by destruct b. Qed.

Lemma stored_comment_keys (b : bool) now c :
  let c' := if b then c else Comment.set_pub_date now c in
  Comment.review c' = Comment.review c
  ∧ Comment.author c' = Comment.author c.
Proof. by destruct b. Qed.

(** What a cascading delete of reviews keeps. *)
Lemma delete_reviews_reviews P db k r :
  reviews (delete_reviews P db) !! k = Some r ↔
    reviews db !! k = Some r ∧ P k r = false.
Proof.
  unfold delete_reviews; simpl. rewrite map_lookup_filter_Some; simpl.
  destruct (P k r); simpl; split; intros [? ?]; split; auto;
    try discriminate; tauto.
Qed.

Lemma delete_reviews_comments P db k c :
  comments (delete_reviews P db) !! k = Some c ↔
    comments db !! k = Some c
    ∧ ∀ r, reviews db !! Comment.review c = Some r →
           P (Comment.review c) r = false.
Proof.
  unfold delete_reviews; simpl. rewrite map_lookup_filter_Some; simpl.
  rewrite map_lookup_filter_None; simpl.
  split; intros [Hc H]; split; try done.
  - intros r Hr. destruct H as [H|H]; [congruence|].
    specialize (H r Hr). by destruct (P (Comment.review c) r).
  - destruct (reviews db !! Comment.review c) as [r|] eqn:Hr; [|by left].
    right. intros r' [= <-]. rewrite (H r eq_refl). by intros [].
Qed.

Lemma delete_reviews_frame P db :
  users (delete_reviews P db) = users db
  ∧ categories (delete_reviews P db) = categories db
  ∧ genres (delete_reviews P db) = genres db
  ∧ titles (delete_reviews P db) = titles db
  ∧ title_genre (delete_reviews P db) = title_genre db.
Proof. done. Qed.

Ltac inv_Return H :=
  unfold create_user, delete_user, save_category, delete_category,
    save_genre, delete_genre, save_title, delete_title, genre_add,
    genre_remove, delete_review, delete_comment in H;
  repeat match type of H with
         | _ ≫= _ = Return _ => apply bind_Return in H as ([] & ? & H)
         | Return _ = Return _ => injection H as <-
         end.

#[local] Arguments delete_reviews : simpl never.

(** ** Referential integrity *)

Lemma delete_reviews_integrity P db :
  referential_integrity db → referential_integrity (delete_reviews P db).
Proof.
  intros [Hr Hc]. split.
  - intros k r [Hk _]%delete_reviews_reviews. exact (Hr k r Hk).
  - intros k c [Hk Hkeep]%delete_reviews_comments.
    destruct (Hc k c Hk) as [[r Hrev] Hau]. split; [|done].
    exists r. apply delete_reviews_reviews. eauto.
Qed.

Lemma exec_integrity op db db' :
  referential_integrity db → exec op db = Return db' →
  referential_integrity db'.
Proof.
  intros Hinv Hexec. destruct op; simpl in Hexec.
  - (* CreateUser *)
    inv_Return Hexec. destruct Hinv as [Hr Hc].
    split; intros k x Hk; cbn in *.
    + destruct (Hr k x Hk). split; [done | set_solver].
    + destruct (Hc k x Hk). split; [done | set_solver].
  - (* DeleteUser *)
    inv_Return Hexec.
    destruct (delete_reviews_integrity
                (λ _ r, bool_decide (Review.author r = pk)) db Hinv)
      as [Hr Hc].
    split; intros k x Hk; cbn in *.
    + destruct (Hr k x Hk) as [Ht Hau]. split; [done|].
      apply delete_reviews_reviews in Hk as [_ Hne].
      apply bool_decide_eq_false in Hne. set_solver.
    + apply map_lookup_filter_Some in Hk as [Hk Hne]; cbn in Hne.
      destruct (Hc k x Hk) as [Hrev Hau]. split; [done | set_solver].
  - (* SaveCategory *)
    inv_Return Hexec. exact Hinv.
  - (* DeleteCategory *)
    inv_Return Hexec. destruct Hinv as [Hr Hc].
    split; intros k x Hk; cbn in *; [|by apply (Hc k x)].
    destruct (Hr k x Hk) as [[t Ht] Hau]. split; [|done].
    rewrite lookup_fmap, Ht. by eexists.
  - (* SaveGenre *)
    inv_Return Hexec. exact Hinv.
  - (* DeleteGenre *)
    inv_Return Hexec. exact Hinv.
  - (* SaveTitle *)
    inv_Return Hexec. destruct Hinv as [Hr Hc].
    split; intros k x Hk; cbn in *; [|by apply (Hc k x)].
    destruct (Hr k x Hk) as [Ht Hau]. split; [|done].
    rewrite lookup_insert_is_Some. destruct (decide (pk = Review.title x));
      auto.
  - (* DeleteTitle *)
    inv_Return Hexec.
    destruct (delete_reviews_integrity
                (λ _ r, bool_decide (Review.title r = pk)) db Hinv)
      as [Hr Hc].
    split; intros k x Hk; cbn in *; [|by apply (Hc k x)].
    destruct (Hr k x Hk) as [Ht Hau]. split; [|done].
    apply delete_reviews_reviews in Hk as [_ Hne].
    apply bool_decide_eq_false in Hne.
    cbn in Ht. by rewrite lookup_delete_ne.
  - (* GenreAdd *)
    inv_Return Hexec. exact Hinv.
  - (* GenreRemove *)
    inv_Return Hexec. exact Hinv.
  - (* SaveReview *)
    apply save_review_Return in Hexec as (Ht & Hau & _ & ->).
    destruct Hinv as [Hr Hc]. split; intros k x Hk; cbn in *.
    + apply lookup_insert_Some in Hk as [[<- <-] | [_ Hk]].
      * destruct (stored_review_keys (has_row (reviews db) pk) now r)
          as [-> ->]. done.
      * by apply (Hr k x).
    + destruct (Hc k x Hk) as [Hrev Hcau]. split; [|done].
      rewrite lookup_insert_is_Some.
      destruct (decide (pk = Comment.review x)); auto.
  - (* DeleteReview *)
    inv_Return Hexec. by apply delete_reviews_integrity.
  - (* SaveComment *)
    apply save_comment_Return in Hexec as (Hrev & Hau & ->).
    destruct Hinv as [Hr Hc]. split; intros k x Hk; cbn in *.
    + by apply (Hr k x).
    + apply lookup_insert_Some in Hk as [[<- <-] | [_ Hk]].
      * destruct (stored_comment_keys (has_row (comments db) pk) now c)
          as [-> ->]. done.
      * by apply (Hc k x).
  - (* DeleteComment *)
    inv_Return Hexec. destruct Hinv as [Hr Hc].
    split; intros k x Hk; cbn in *; [by apply (Hr k x)|].
    apply lookup_delete_Some in Hk as [_ Hk]. by apply (Hc k x).
Qed.

Lemma reachable_integrity db : reachable db → referential_integrity db.
Proof.
  induction 1 as [|op db db' _ IH Hexec].
  - split; intros k x Hk; simpl in Hk; by rewrite lookup_empty in Hk.
  - by eapply exec_integrity.
Qed.

(** ** One review per author and title *)

Lemma unique_author_title_pair_true db pk r :
  unique_author_title_pair db pk r = true ↔
    ∀ pk' r', reviews db !! pk' = Some r' →
      pk' = pk ∨ ¬ (Review.author r' = Review.author r
                    ∧ Review.title r' = Review.title r).
Proof. unfold unique_author_title_pair. by rewrite bool_decide_eq_true. Qed.

Lemma unique_author_title_pair_false db pk r pk' r' :
  reviews db !! pk' = Some r' → pk' ≠ pk →
  Review.author r' = Review.author r → Review.title r' = Review.title r →
  unique_author_title_pair db pk r = false.
Proof.
  intros Hk Hne Hau Ht. apply not_true_is_false.
  rewrite unique_author_title_pair_true. intros H.
  destruct (H pk' r' Hk) as [?|Hn]; [done | by apply Hn].
Qed.

(** Rows are only taken away: what held of all pairs of rows still holds. *)
Lemma review_pairs_unique_subset db db' :
  (∀ k r, reviews db' !! k = Some r → reviews db !! k = Some r) →
  review_pairs_unique db → review_pairs_unique db'.
Proof.
  intros Hsub Huq pk1 pk2 r1 r2 H1 H2. apply Huq; by apply Hsub.
Qed.

Lemma delete_reviews_subset P db k r :
  reviews (delete_reviews P db) !! k = Some r → reviews db !! k = Some r.
Proof. by intros [? _]%delete_reviews_reviews. Qed.

Lemma exec_pairs_unique op db db' :
  review_pairs_unique db → exec op db = Return db' →
  review_pairs_unique db'.
Proof.
  intros Huq Hexec.
  destruct op; simpl in Hexec;
    try solve [inv_Return Hexec;
               apply (review_pairs_unique_subset db); [|done];
               cbn; intros k0 r0 Hk0;
               first [exact Hk0 | by eapply delete_reviews_subset]].
  - (* SaveReview *)
    apply save_review_Return in Hexec as (_ & _ & Hck & ->).
    rewrite unique_author_title_pair_true in Hck.
    intros pk1 pk2 r1 r2 H1 H2 Hau Ht. cbn in H1, H2.
    destruct (stored_review_keys (has_row (reviews db) pk) now r)
      as [Hkt Hka].
    apply lookup_insert_Some in H1 as [[<- <-] | [Hne1 H1]];
      apply lookup_insert_Some in H2 as [[<- <-] | [Hne2 H2]]; try done.
    + rewrite Hkt in Ht. rewrite Hka in Hau.
      destruct (Hck pk2 r2 H2) as [?|Hn]; [done | by destruct Hn].
    + rewrite Hkt in Ht. rewrite Hka in Hau.
      destruct (Hck pk1 r1 H1) as [?|Hn]; [done | by destruct Hn].
    + by apply (Huq pk1 pk2 r1 r2).
  - (* SaveComment *)
    apply save_comment_Return in Hexec as (_ & _ & ->). exact Huq.
Qed.

Lemma reachable_pairs_unique db : reachable db → review_pairs_unique db.
Proof.
  induction 1 as [|op db db' _ IH Hexec].
  - intros pk1 pk2 r1 r2 H1. cbn in H1. by rewrite lookup_empty in H1.
  - by eapply exec_pairs_unique.
Qed.

(** A refused write leaves the state as it was. *)
Lemma apply_op_raises op db : raises (exec op db) → apply_op op db = db.
Proof. unfold apply_op. by destruct (exec op db). Qed.

Lemma reachable_apply_op op db :
  reachable db → reachable (apply_op op db).
Proof.
  intros Hdb. unfold apply_op. destruct (exec op db) as [db'|e] eqn:Hexec.
  - by eapply reachable_step.
  - done.
Qed.

Lemma reachable_run ops db : reachable db → reachable (run ops db).
Proof.
  revert db. induction ops as [|op ops IH]; intros db Hdb; [done|].
  apply IH. by apply reachable_apply_op.
Qed.

(** C5: in every reachable state no two Review rows have the same author
    and title; and saving a Review under a key [pk] when another row has
    its author and title violates [unique_author_title_pair]: the save
    raises and the state stays as it was (in a reachable state the error is
    the [IntegrityError] of that constraint). *)
Theorem one_review_per_author_and_title :
  (∀ db, reachable db → review_pairs_unique db)
  ∧ (∀ db now pk r pk' r',
       reviews db !! pk' = Some r' → pk' ≠ pk →
       Review.author r' = Review.author r →
       Review.title r' = Review.title r →
       unique_author_title_pair db pk r = false
       ∧ raises (exec (SaveReview now pk r) db)
       ∧ apply_op (SaveReview now pk r) db = db
       ∧ (reachable db →
          exec (SaveReview now pk r) db
          = Raise (IntegrityError "unique_author_title_pair"))).
Proof.
  split; [apply reachable_pairs_unique|].
  intros db now pk r pk' r' Hk Hne Hau Ht.
  pose proof (unique_author_title_pair_false db pk r pk' r' Hk Hne Hau Ht)
    as Hck.
  assert (Hraises : raises (exec (SaveReview now pk r) db)).
  { destruct (exec (SaveReview now pk r) db) as [db'|e] eqn:Hexec; [|done].
    apply save_review_Return in Hexec as (_ & _ & Hck' & _). congruence. }
  repeat split; try done.
  - by apply apply_op_raises.
  - intros [Hr _]%reachable_integrity. destruct (Hr pk' r' Hk) as [Ht' Hau'].
    simpl. unfold save_review.
    rewrite Ht in Ht'. apply foreign_key_Return in Ht'. rewrite Ht'.
    rewrite Hau in Hau'. simpl.
    rewrite (bool_decide_eq_true_2 _ Hau'). simpl. by rewrite Hck.
Qed.

(** ** No comment on one's own review *)

(** The declared constraint compares a column of Comment with a column of
    Review; rendering it raises, and the Comment table carries no check. *)
Lemma self_commenting_check_not_rendered :
  constraint_sql self_commenting_check = Raise FieldError.
Proof. reflexivity. Qed.

(** C3: the condition of [self_commenting_check] cannot be rendered
    ([FieldError]: the reference [review__author] needs a join), so no save
    evaluates it.  A Comment whose author is the author of the commented
    Review is stored like any other, whenever its Review and author exist;
    and a state with such a Comment is reachable: user 1 reviews title 10
    and comments on the review. *)
Theorem self_comment_is_stored :
  constraint_sql self_commenting_check = Raise FieldError
  ∧ (∀ db now pk c r,
       reviews db !! Comment.review c = Some r →
       Comment.author c = Review.author r →
       Comment.author c ∈ users db →
       ∃ db' c',
         exec (SaveComment now pk c) db = Return db'
         ∧ comments db' !! pk = Some c'
         ∧ Comment.review c' = Comment.review c
         ∧ Comment.author c' = Review.author r
         ∧ reviews db' = reviews db)
  ∧ (reachable (run Sample.self_commented empty_db)
     ∧ ¬ no_self_comment (run Sample.self_commented empty_db)).
Proof.
  split; [reflexivity|]. split.
  - intros db now pk c r Hr Hau Hu.
    eexists _, (if has_row (comments db) pk then c
                else Comment.set_pub_date now c).
    split; [|split; [|split; [|split]]].
    + simpl. apply save_comment_Return. eauto.
    + cbn. apply lookup_insert_eq.
    + by destruct (has_row (comments db) pk).
    + rewrite <- Hau. by destruct (has_row (comments db) pk).
    + done.
  - split; [apply reachable_run, reachable_empty|].
    assert (Hc : comments (run Sample.self_commented empty_db) !! 1000
                 = Some (Comment.set_pub_date 6 (Sample.comment_by 1)))
      by (vm_compute; reflexivity).
    assert (Hr : reviews (run Sample.self_commented empty_db) !! 100
                 = Some (Review.set_pub_date 5 (Sample.review_by 1 7)))
      by (vm_compute; reflexivity).
    intros Hinv. by apply (Hinv 1000 _ _ Hc Hr).
Qed.

(** ** Deleting a Category *)

Lemma null_category_spec pk t :
  Title.name (null_category pk t) = Title.name t
  ∧ Title.year (null_category pk t) = Title.year t
  ∧ Title.description (null_category pk t) = Title.description t
  ∧ (Title.category t = Some pk → Title.category (null_category pk t) = None)
  ∧ (Title.category t ≠ Some pk → null_category pk t = t).
Proof.
  unfold null_category.
  destruct (decide (Title.category t = Some pk)); simpl;
    repeat split; intros; first [done | contradiction].
Qed.

(** C7: deleting a Category always succeeds; every Title that referenced it
    is kept under its key with [category] set to null and with its name,
    year and description as before, every other Title is kept as it is, no
    Title appears, and the genre associations, the genres, reviews,
    comments and users and every other Category are unchanged. *)
Theorem delete_category_sets_null (db : DB) (pk : Z) :
  ∃ db',
    exec (DeleteCategory pk) db = Return db'
    ∧ (∀ k t, titles db !! k = Some t →
         ∃ t', titles db' !! k = Some t'
               ∧ Title.name t' = Title.name t
               ∧ Title.year t' = Title.year t
               ∧ Title.description t' = Title.description t
               ∧ (Title.category t = Some pk → Title.category t' = None)
               ∧ (Title.category t ≠ Some pk → t' = t))
    ∧ (∀ k, titles db !! k = None → titles db' !! k = None)
    ∧ title_genre db' = title_genre db
    ∧ categories db' = delete pk (categories db)
    ∧ genres db' = genres db
    ∧ reviews db' = reviews db
    ∧ comments db' = comments db
    ∧ users db' = users db.
Proof.
  eexists. split; [reflexivity|]. cbn. repeat split.
  - intros k t Ht. exists (null_category pk t).
    split; [by rewrite lookup_fmap, Ht | apply null_category_spec].
  - intros k Ht. by rewrite lookup_fmap, Ht.
Qed.

(** ** Cascading deletes *)

(** C8: deleting a Title always succeeds and removes, with the Title, every
    Review of it and every Comment on such a Review; deleting a Review
    removes it and every Comment on it; and in every reachable state each
    Review names an existing Title (and author) and each Comment an
    existing Review (and author). *)
Theorem delete_cascades :
  (∀ db pk, ∃ db',
     exec (DeleteTitle pk) db = Return db'
     ∧ titles db' !! pk = None
     ∧ (∀ k r, reviews db' !! k = Some r → Review.title r ≠ pk)
     ∧ (∀ k c r, comments db' !! k = Some c →
          reviews db !! Comment.review c = Some r → Review.title r ≠ pk))
  ∧ (∀ db pk r, reviews db !! pk = Some r → ∃ db',
       exec (DeleteReview pk) db = Return db'
       ∧ reviews db' !! pk = None
       ∧ (∀ k c, comments db' !! k = Some c → Comment.review c ≠ pk))
  ∧ (∀ db, reachable db → referential_integrity db).
Proof.
  split; [|split].
  - intros db pk. eexists. split; [reflexivity|]. cbn. repeat split.
    + apply lookup_delete_eq.
    + intros k r [_ Hne]%delete_reviews_reviews.
      by apply bool_decide_eq_false in Hne.
    + intros k c r [_ Hkeep]%delete_reviews_comments Hr.
      specialize (Hkeep r Hr). by apply bool_decide_eq_false in Hkeep.
  - intros db pk r Hr. eexists. split; [reflexivity|]. cbn. split.
    + destruct (reviews (delete_reviews _ db) !! pk) as [r'|] eqn:Hr';
        [|done].
      apply delete_reviews_reviews in Hr' as [_ Hne].
      by apply bool_decide_eq_false in Hne.
    + intros k c [_ Hkeep]%delete_reviews_comments Heq.
      rewrite Heq in Hkeep. specialize (Hkeep r Hr).
      by apply bool_decide_eq_false in Hkeep.
  - apply reachable_integrity.
Qed.

(** * The rest of the schema *)

(** ** Slugs *)

Lemma slug_char_alphabet a :
  slug_char a = bool_decide (a ∈ String.list_ascii_of_string slug_alphabet).
Proof.
  destruct a as [[] [] [] [] [] [] [] []]; vm_compute; reflexivity.
Qed.

Lemma all_slug_chars_Forall s :
  all_slug_chars s = true ↔
    Forall (λ a, a ∈ String.list_ascii_of_string slug_alphabet)
      (String.list_ascii_of_string s).
Proof.
  induction s as [|a s IH]; simpl.
  - split; [constructor | done].
  - rewrite andb_true_iff, IH, Forall_cons, slug_char_alphabet.
    by rewrite bool_decide_eq_true.
Qed.

Lemma clean_errors_SlugField n given s :
  given = [] ∨ given = [validate_slug] →
  clean_errors (SlugField n given) s = [] ↔
    (1 ≤ String.length s ≤ n)%nat ∧ all_slug_chars s = true.
Proof.
  intros Hgiven. destruct s as [|a s]; [simpl; split; [done | lia]|].
  unfold clean_errors, char_validators, call_str_validator.
  cbn [empty_value SlugField default_validators given_validators
       max_length].
  set (v := String a s).
  change (all_slug_chars v) with (slug_re_match v).
  assert (1 ≤ String.length v)%nat by (simpl; lia).
  destruct Hgiven as [-> | ->]; cbn [map concat app];
    destruct (slug_re_match v);
    destruct (Nat.ltb_spec n (String.length v)); cbn [map concat app];
    (split; [intros Herr | intros [Hlen Hre]]);
    first [discriminate | lia | done | split; [lia | done]].
Qed.

(** X1: the slug of a Category, and the slug of a Genre, is accepted by the
    field's validation if and only if it has between 1 and 50 characters,
    each of them an ASCII letter, a digit, a hyphen or an underscore. *)
Theorem slug_accepted_iff (s : string) :
  let well_formed :=
    (1 ≤ String.length s ≤ 50)%nat
    ∧ Forall (λ a, a ∈ String.list_ascii_of_string slug_alphabet)
        (String.list_ascii_of_string s) in
  (clean_errors Category_slug s = [] ↔ well_formed)
  ∧ (clean_errors Genre_slug s = [] ↔ well_formed).
Proof.
  cbv zeta. rewrite <- all_slug_chars_Forall.
  split; apply clean_errors_SlugField; by right.
Qed.

(** X2: the [validators=[validate_slug]] argument of the slug fields
    repeats the validator a SlugField has by default.  Without it the same
    slugs are accepted; with it, every non-empty slug with a character
    outside the alphabet gets the [invalid] error twice where the field
    without the argument reports it once (followed, for both, by
    [max_length] when the slug has more than 50 characters). *)
Theorem given_validate_slug_redundant (s : string) :
  (clean_errors Category_slug s = [] ↔ clean_errors (SlugField 50 []) s = [])
  ∧ (s ≠ EmptyString →
     ¬ Forall (λ a, a ∈ String.list_ascii_of_string slug_alphabet)
         (String.list_ascii_of_string s) →
     let rest :=
       if (50 <? String.length s)%nat then ["max_length"] else [] in
     clean_errors (SlugField 50 []) s = "invalid" :: rest
     ∧ clean_errors Category_slug s = "invalid" :: "invalid" :: rest
     ∧ clean_errors Genre_slug s = "invalid" :: "invalid" :: rest).
Proof.
  split.
  - unfold Category_slug.
    rewrite (clean_errors_SlugField 50 [validate_slug]) by (by right).
    by rewrite (clean_errors_SlugField 50 []) by (by left).
  - intros Hne Hbad. rewrite <- all_slug_chars_Forall in Hbad.
    apply not_true_is_false in Hbad.
    destruct s as [|a s]; [done|].
    unfold clean_errors, Category_slug, Genre_slug, char_validators,
      call_str_validator.
    cbn [empty_value SlugField default_validators given_validators
         max_length map concat app slug_re_match].
    rewrite Hbad. cbn [app]. rewrite app_nil_r. done.
Qed.

(** ** Categories, genres and titles *)

Lemma save_category_Return pk c db db' :
  save_category pk c db = Return db' ↔
    unique_category_slug db pk c = true
    ∧ db' = set_categories <[pk := c]> db.
Proof.
  unfold save_category. rewrite bind_Return. split.
  - intros ([] & Hck%check_Return & [= <-]). done.
  - intros [Hck ->]. exists (). by rewrite check_Return.
Qed.

Lemma save_genre_Return pk g db db' :
  save_genre pk g db = Return db' ↔
    unique_genre_slug db pk g = true
    ∧ db' = set_genres <[pk := g]> db.
Proof.
  unfold save_genre. rewrite bind_Return. split.
  - intros ([] & Hck%check_Return & [= <-]). done.
  - intros [Hck ->]. exists (). by rewrite check_Return.
Qed.

Lemma save_title_Return pk t db db' :
  save_title pk t db = Return db' ↔
    (∀ c, Title.category t = Some c → is_Some (categories db !! c))
    ∧ 0 ≤ Title.year t
    ∧ db' = set_titles <[pk := t]> db.
Proof.
  unfold save_title. rewrite bind_Return. split.
  - intros ([] & Hfk & H). apply bind_Return in H as ([] & Hck & [= <-]).
    apply check_Return, Z.leb_le in Hck. repeat split; [|done].
    intros c Hc. rewrite Hc in Hfk. by apply foreign_key_Return in Hfk.
  - intros (Hfk & Hyear & ->). exists (). split.
    + destruct (Title.category t) as [c|]; [|done].
      apply foreign_key_Return. by apply Hfk.
    + apply bind_Return. exists (). split; [|done].
      by apply check_Return, Z.leb_le.
Qed.

Lemma genre_add_Return t g db db' :
  genre_add t g db = Return db' ↔
    is_Some (titles db !! t) ∧ is_Some (genres db !! g)
    ∧ db' = set_title_genre (λ s, {[(t, g)]} ∪ s) db.
Proof.
  unfold genre_add. rewrite bind_Return. split.
  - intros ([] & Ht%foreign_key_Return & H).
    apply bind_Return in H as ([] & Hg%foreign_key_Return & [= <-]). done.
  - intros (Ht & Hg & ->). exists (). split;
      [by apply foreign_key_Return|].
    apply bind_Return. exists (). split; [by apply foreign_key_Return|done].
Qed.

Lemma null_category_Some pk t c :
  Title.category (null_category pk t) = Some c →
  Title.category t = Some c ∧ c ≠ pk.
Proof.
  unfold null_category.
  destruct (decide (Title.category t = Some pk)) as [Heq|Hne]; simpl;
    [done|].
  intros Hc. split; [done|]. intros ->. done.
Qed.

Lemma exec_catalog_integrity op db db' :
  title_refs db ∧ title_genre_refs db → exec op db = Return db' →
  title_refs db' ∧ title_genre_refs db'.
Proof.
  intros [Ht Hg] Hexec. destruct op; simpl in Hexec;
    try (first [ apply save_review_Return in Hexec as (_ & _ & _ & ->)
               | apply save_comment_Return in Hexec as (_ & _ & ->)
               | inv_Return Hexec ]; unfold delete_reviews; by split).
  - (* SaveCategory *)
    apply save_category_Return in Hexec as [_ ->]. split; [|done].
    intros k t Hk c' Hc'. cbn in *. rewrite lookup_insert_is_Some.
    destruct (decide (pk = c')); [by left | right]. split; [done|].
    by apply (Ht k t).
  - (* DeleteCategory *)
    inv_Return Hexec. split.
    + intros k t' Hk c Hc. cbn in *.
      rewrite lookup_fmap in Hk.
      destruct (titles db !! k) as [t|] eqn:Hkt; [|done].
      injection Hk as <-. apply null_category_Some in Hc as [Hc Hne].
      rewrite lookup_delete_ne by done. by apply (Ht k t).
    + intros t g Htg. cbn in *. destruct (Hg t g Htg) as [[x Hx] ?].
      split; [|done]. rewrite lookup_fmap, Hx. by eexists.
  - (* SaveGenre *)
    apply save_genre_Return in Hexec as [_ ->]. split; [done|].
    intros t g' Htg. cbn in *. destruct (Hg t g' Htg). split; [done|].
    rewrite lookup_insert_is_Some. destruct (decide (pk = g')); auto.
  - (* DeleteGenre *)
    inv_Return Hexec. split; [done|].
    intros t g Htg. cbn in *. apply elem_of_filter in Htg as [Hne Htg].
    cbn in Hne. destruct (Hg t g Htg). split; [done|].
    by rewrite lookup_delete_ne.
  - (* SaveTitle *)
    apply save_title_Return in Hexec as (Hfk & _ & ->). split.
    + intros k t' Hk c Hc. cbn in *.
      apply lookup_insert_Some in Hk as [[_ <-] | [_ Hk]];
        [by apply Hfk | by apply (Ht k t')].
    + intros t' g Htg. cbn in *. destruct (Hg t' g Htg). split; [|done].
      rewrite lookup_insert_is_Some. destruct (decide (pk = t')); auto.
  - (* DeleteTitle *)
    inv_Return Hexec. unfold delete_reviews. split.
    + intros k t Hk c Hc. cbn in *.
      apply lookup_delete_Some in Hk as [_ Hk]. by apply (Ht k t).
    + intros t g Htg. cbn in *. apply elem_of_filter in Htg as [Hne Htg].
      cbn in Hne. destruct (Hg t g Htg). split; [|done].
      by rewrite lookup_delete_ne.
  - (* GenreAdd *)
    apply genre_add_Return in Hexec as (Htt & Hgg & ->). split; [done|].
    intros t' g' Htg. cbn in *.
    apply elem_of_union in Htg as [Heq%elem_of_singleton | Htg];
      [by injection Heq as -> -> | by apply Hg].
  - (* GenreRemove *)
    inv_Return Hexec. split; [done|].
    intros t' g' Htg. cbn in *.
    apply elem_of_difference in Htg as [Htg _]. by apply Hg.
Qed.

(** X3: in every reachable state the category of a Title, when not null,
    is an existing Category, and every association of the [genre] relation
    joins an existing Title with an existing Genre; a Title naming a
    Category that does not exist is refused and the state stays as it
    was. *)
Theorem catalog_references_exist :
  (∀ db, reachable db → title_refs db ∧ title_genre_refs db)
  ∧ (∀ db pk t c,
       Title.category t = Some c → categories db !! c = None →
       (∃ name, exec (SaveTitle pk t) db = Raise (IntegrityError name))
       ∧ apply_op (SaveTitle pk t) db = db).
Proof.
  split.
  - induction 1 as [|op db db' _ IH Hexec].
    + split; [intros k t Hk | intros t g Htg]; cbn in *.
      * by rewrite lookup_empty in Hk.
      * by apply not_elem_of_empty in Htg.
    + by eapply exec_catalog_integrity.
  - intros db pk t c Hc Hnone.
    assert (Hexec : exec (SaveTitle pk t) db
                    = Raise (IntegrityError "FOREIGN KEY")).
    { simpl. unfold save_title, foreign_key, has_row. rewrite Hc.
      rewrite bool_decide_eq_false_2; [done|].
      rewrite Hnone. by intros [? ?]. }
    split; [by eexists|]. apply apply_op_raises. by rewrite Hexec.
Qed.

Lemma unique_category_slug_true db pk c :
  unique_category_slug db pk c = true ↔
    ∀ pk' c', categories db !! pk' = Some c' →
      pk' = pk ∨ Category.slug c' ≠ Category.slug c.
Proof. unfold unique_category_slug. by rewrite bool_decide_eq_true. Qed.

Lemma unique_genre_slug_true db pk g :
  unique_genre_slug db pk g = true ↔
    ∀ pk' g', genres db !! pk' = Some g' →
      pk' = pk ∨ Genre.slug g' ≠ Genre.slug g.
Proof. unfold unique_genre_slug. by rewrite bool_decide_eq_true. Qed.

Lemma exec_slugs_unique op db db' :
  category_slugs_unique db ∧ genre_slugs_unique db →
  exec op db = Return db' →
  category_slugs_unique db' ∧ genre_slugs_unique db'.
Proof.
  intros [Hc Hg] Hexec. destruct op; simpl in Hexec;
    try (first [ apply save_review_Return in Hexec as (_ & _ & _ & ->)
               | apply save_comment_Return in Hexec as (_ & _ & ->)
               | apply save_title_Return in Hexec as (_ & _ & ->)
               | apply genre_add_Return in Hexec as (_ & _ & ->)
               | inv_Return Hexec ]; unfold delete_reviews; by split).
  - (* SaveCategory *)
    apply save_category_Return in Hexec as [Hck ->]. split; [|done].
    rewrite unique_category_slug_true in Hck.
    intros k1 k2 c1 c2 H1 H2 Hslug. cbn in *.
    apply lookup_insert_Some in H1 as [[<- <-] | [Hne1 H1]];
      apply lookup_insert_Some in H2 as [[<- <-] | [Hne2 H2]]; try done.
    + destruct (Hck k2 c2 H2) as [?|Hn]; [done | by destruct Hn].
    + destruct (Hck k1 c1 H1) as [?|Hn]; [done | by destruct Hn].
    + by apply (Hc k1 k2 c1 c2).
  - (* DeleteCategory *)
    inv_Return Hexec. split; [|done].
    intros k1 k2 c1 c2 H1 H2. cbn in *.
    apply lookup_delete_Some in H1 as [_ H1], H2 as [_ H2]. by apply Hc.
  - (* SaveGenre *)
    apply save_genre_Return in Hexec as [Hck ->]. split; [done|].
    rewrite unique_genre_slug_true in Hck.
    intros k1 k2 g1 g2 H1 H2 Hslug. cbn in *.
    apply lookup_insert_Some in H1 as [[<- <-] | [Hne1 H1]];
      apply lookup_insert_Some in H2 as [[<- <-] | [Hne2 H2]]; try done.
    + destruct (Hck k2 g2 H2) as [?|Hn]; [done | by destruct Hn].
    + destruct (Hck k1 g1 H1) as [?|Hn]; [done | by destruct Hn].
    + by apply (Hg k1 k2 g1 g2).
  - (* DeleteGenre *)
    inv_Return Hexec. split; [done|].
    intros k1 k2 g1 g2 H1 H2. cbn in *.
    apply lookup_delete_Some in H1 as [_ H1], H2 as [_ H2]. by apply Hg.
Qed.

(** X4: in every reachable state no two Category rows share a slug and no
    two Genre rows share a slug; saving a Category (or Genre) under a key
    when a row under another key has its slug is refused with an
    [IntegrityError], and the state stays as it was. *)
Theorem slugs_unique :
  (∀ db, reachable db → category_slugs_unique db ∧ genre_slugs_unique db)
  ∧ (∀ db pk c pk' c',
       categories db !! pk' = Some c' → pk' ≠ pk →
       Category.slug c' = Category.slug c →
       unique_category_slug db pk c = false
       ∧ (∃ name, exec (SaveCategory pk c) db = Raise (IntegrityError name))
       ∧ apply_op (SaveCategory pk c) db = db)
  ∧ (∀ db pk g pk' g',
       genres db !! pk' = Some g' → pk' ≠ pk →
       Genre.slug g' = Genre.slug g →
       unique_genre_slug db pk g = false
       ∧ (∃ name, exec (SaveGenre pk g) db = Raise (IntegrityError name))
       ∧ apply_op (SaveGenre pk g) db = db).
Proof.
  split; [|split].
  - induction 1 as [|op db db' _ IH Hexec].
    + split; intros k1 k2 x1 x2 H1; cbn in H1;
        by rewrite lookup_empty in H1.
    + by eapply exec_slugs_unique.
  - intros db pk c pk' c' Hk Hne Hslug.
    assert (Hck : unique_category_slug db pk c = false).
    { apply not_true_is_false. rewrite unique_category_slug_true.
      intros H. by destruct (H pk' c' Hk). }
    assert (Hexec : exec (SaveCategory pk c) db
                    = Raise (IntegrityError "reviews_category_slug_key"))
      by (simpl; unfold save_category; by rewrite Hck).
    repeat split; [done | by eexists |].
    apply apply_op_raises. by rewrite Hexec.
  - intros db pk g pk' g' Hk Hne Hslug.
    assert (Hck : unique_genre_slug db pk g = false).
    { apply not_true_is_false. rewrite unique_genre_slug_true.
      intros H. by destruct (H pk' g' Hk). }
    assert (Hexec : exec (SaveGenre pk g) db
                    = Raise (IntegrityError "reviews_genre_slug_key"))
      by (simpl; unfold save_genre; by rewrite Hck).
    repeat split; [done | by eexists |].
    apply apply_op_raises. by rewrite Hexec.
Qed.

(** ** What a delete removes and what it keeps *)

(** X5: deleting a user always succeeds.  It removes exactly the Reviews
    written by the user, and exactly the Comments that the user wrote or
    that are on one of those Reviews; the other users, and all titles,
    categories, genres and genre associations, are as before. *)
Theorem delete_user_cascades (db : DB) (pk : Z) :
  ∃ db',
    exec (DeleteUser pk) db = Return db'
    ∧ (∀ u, u ∈ users db' ↔ u ∈ users db ∧ u ≠ pk)
    ∧ (∀ k r, reviews db' !! k = Some r ↔
              reviews db !! k = Some r ∧ Review.author r ≠ pk)
    ∧ (∀ k c, comments db' !! k = Some c ↔
              comments db !! k = Some c ∧ Comment.author c ≠ pk
              ∧ ∀ r, reviews db !! Comment.review c = Some r →
                     Review.author r ≠ pk)
    ∧ titles db' = titles db
    ∧ categories db' = categories db
    ∧ genres db' = genres db
    ∧ title_genre db' = title_genre db.
Proof.
  eexists. split; [reflexivity|]. cbn. split_and!; try done.
  - intros u. rewrite elem_of_difference, not_elem_of_singleton. done.
  - intros k r. rewrite delete_reviews_reviews, bool_decide_eq_false. done.
  - intros k c. rewrite map_lookup_filter_Some, delete_reviews_comments.
    cbn. setoid_rewrite bool_decide_eq_false. tauto.
Qed.

(** X6: deleting a Genre always succeeds.  It removes the Genre and exactly
    the associations of Titles with it; the Titles themselves, the
    associations with other Genres, and all categories, reviews, comments
    and users are as before. *)
Theorem delete_genre_keeps_titles (db : DB) (pk : Z) :
  ∃ db',
    exec (DeleteGenre pk) db = Return db'
    ∧ genres db' = delete pk (genres db)
    ∧ (∀ t g, (t, g) ∈ title_genre db' ↔ (t, g) ∈ title_genre db ∧ g ≠ pk)
    ∧ titles db' = titles db
    ∧ categories db' = categories db
    ∧ reviews db' = reviews db
    ∧ comments db' = comments db
    ∧ users db' = users db.
Proof.
  eexists. split; [reflexivity|]. cbn. split_and!; try done.
  intros t g. rewrite elem_of_filter. cbn. tauto.
Qed.

(** X7: deleting a Title removes nothing but the Title, its genre
    associations, its Reviews and the Comments on them: the Reviews kept are
    exactly those of other Titles, the Comments kept exactly those on a
    Review of another Title, and the other Titles and all categories, genres
    and users are as before.  Deleting a Review keeps exactly the other
    Reviews and changes no other table but the comments. *)
Theorem delete_title_keeps_the_rest :
  (∀ db pk, ∃ db',
     exec (DeleteTitle pk) db = Return db'
     ∧ titles db' = delete pk (titles db)
     ∧ (∀ t g, (t, g) ∈ title_genre db' ↔
               (t, g) ∈ title_genre db ∧ t ≠ pk)
     ∧ (∀ k r, reviews db' !! k = Some r ↔
               reviews db !! k = Some r ∧ Review.title r ≠ pk)
     ∧ (∀ k c, comments db' !! k = Some c ↔
               comments db !! k = Some c
               ∧ ∀ r, reviews db !! Comment.review c = Some r →
                      Review.title r ≠ pk)
     ∧ categories db' = categories db
     ∧ genres db' = genres db
     ∧ users db' = users db)
  ∧ (∀ db pk, ∃ db',
       exec (DeleteReview pk) db = Return db'
       ∧ reviews db' = delete pk (reviews db)
       ∧ (∀ k c, comments db' !! k = Some c ↔
                 comments db !! k = Some c
                 ∧ (is_Some (reviews db !! pk) → Comment.review c ≠ pk))
       ∧ titles db' = titles db
       ∧ title_genre db' = title_genre db
       ∧ categories db' = categories db
       ∧ genres db' = genres db
       ∧ users db' = users db).
Proof.
  split; intros db pk; (eexists; split; [reflexivity|]); cbn;
    split_and!; try done.
  - intros t g. rewrite elem_of_filter. cbn. tauto.
  - intros k r. rewrite delete_reviews_reviews, bool_decide_eq_false. done.
  - intros k c. rewrite delete_reviews_comments.
    by setoid_rewrite bool_decide_eq_false.
  - apply map_eq. intros k. apply option_eq. intros r.
    rewrite delete_reviews_reviews, lookup_delete_Some.
    rewrite bool_decide_eq_false. split; intros [? ?]; split; auto.
  - intros k c. rewrite delete_reviews_comments.
    setoid_rewrite bool_decide_eq_false. split.
    + intros [Hk Hkeep]. split; [done|]. intros [r Hr] Heq.
      rewrite Heq in Hkeep. by apply (Hkeep r).
    + intros [Hk Hkeep]. split; [done|]. intros r Hr Heq.
      rewrite Heq in Hr. by apply Hkeep.
Qed.

(** ** Years *)

Lemma exec_years_not_negative op db db' :
  years_not_negative db → exec op db = Return db' → years_not_negative db'.
Proof.
  intros Hinv Hexec. destruct op; simpl in Hexec;
    try (first [ apply save_review_Return in Hexec as (_ & _ & _ & ->)
               | apply save_comment_Return in Hexec as (_ & _ & ->)
               | apply save_category_Return in Hexec as (_ & ->)
               | apply save_genre_Return in Hexec as (_ & ->)
               | apply genre_add_Return in Hexec as (_ & _ & ->)
               | inv_Return Hexec ]; unfold delete_reviews; done).
  - (* DeleteCategory *)
    inv_Return Hexec. intros k t' Hk. cbn in *. rewrite lookup_fmap in Hk.
    destruct (titles db !! k) as [t|] eqn:Hkt; [|done].
    injection Hk as <-.
    destruct (null_category_spec pk t) as (_ & -> & _). by apply (Hinv k).
  - (* SaveTitle *)
    apply save_title_Return in Hexec as (_ & Hyear & ->).
    intros k t' Hk. cbn in *.
    apply lookup_insert_Some in Hk as [[_ <-] | [_ Hk]];
      [done | by apply (Hinv k)].
  - (* DeleteTitle *)
    inv_Return Hexec. unfold delete_reviews. intros k t Hk. cbn in *.
    apply lookup_delete_Some in Hk as [_ Hk]. by apply (Hinv k).
Qed.

(** X8: in every reachable state the year of every stored Title is 0 or
    more; [save()] refuses a Title with a negative year and leaves the
    state as it was. *)
Theorem stored_years_not_negative :
  (∀ db, reachable db → years_not_negative db)
  ∧ (∀ db pk t,
       Title.year t < 0 →
       raises (exec (SaveTitle pk t) db)
       ∧ apply_op (SaveTitle pk t) db = db).
Proof.
  split.
  - induction 1 as [|op db db' _ IH Hexec].
    + intros k t Hk. cbn in Hk. by rewrite lookup_empty in Hk.
    + by eapply exec_years_not_negative.
  - intros db pk t Hneg.
    pose proof (save_title_negative_year_raises pk t db Hneg) as Hr.
    split; [done | by apply apply_op_raises].
Qed.

(** ** Saving a stored row again *)

Lemma set_reviews_id db pk r :
  reviews db !! pk = Some r → set_reviews <[pk := r]> db = db.
Proof.
  intros Hk. destruct db. unfold set_reviews. cbn in *.
  by rewrite insert_id.
Qed.

Lemma set_comments_id db pk c :
  comments db !! pk = Some c → set_comments <[pk := c]> db = db.
Proof.
  intros Hk. destruct db. unfold set_comments. cbn in *.
  by rewrite insert_id.
Qed.

Lemma set_titles_id db pk t :
  titles db !! pk = Some t → set_titles <[pk := t]> db = db.
Proof.
  intros Hk. destruct db. unfold set_titles. cbn in *.
  by rewrite insert_id.
Qed.

Lemma set_categories_id db pk c :
  categories db !! pk = Some c → set_categories <[pk := c]> db = db.
Proof.
  intros Hk. destruct db. unfold set_categories. cbn in *.
  by rewrite insert_id.
Qed.

Lemma set_genres_id db pk g :
  genres db !! pk = Some g → set_genres <[pk := g]> db = db.
Proof.
  intros Hk. destruct db. unfold set_genres. cbn in *.
  by rewrite insert_id.
Qed.

Lemma reachable_catalog db :
  reachable db →
  (title_refs db ∧ title_genre_refs db)
  ∧ (category_slugs_unique db ∧ genre_slugs_unique db)
  ∧ years_not_negative db.
Proof.
  induction 1 as [|op db db' _ (IH1 & IH2 & IH3) Hexec].
  - split_and!; try by (intros ? ? H; cbn in H; rewrite lookup_empty in H).
    + intros t g Htg. by apply not_elem_of_empty in Htg.
    + intros k1 k2 x1 x2 H1; cbn in H1. by rewrite lookup_empty in H1.
    + intros k1 k2 x1 x2 H1; cbn in H1. by rewrite lookup_empty in H1.
  - split; [|split].
    + by eapply exec_catalog_integrity.
    + by eapply exec_slugs_unique.
    + by eapply exec_years_not_negative.
Qed.

(** X9: in a reachable state, saving a stored Review, Title, Category or
    Genre again as it is stored succeeds and changes nothing: a row never
    conflicts with itself under the unique constraints, and its references
    and its year still pass. *)
Theorem save_again_changes_nothing (db : DB) :
  reachable db →
  (∀ now pk r, reviews db !! pk = Some r →
               exec (SaveReview now pk r) db = Return db)
  ∧ (∀ pk t, titles db !! pk = Some t →
             exec (SaveTitle pk t) db = Return db)
  ∧ (∀ pk c, categories db !! pk = Some c →
             exec (SaveCategory pk c) db = Return db)
  ∧ (∀ pk g, genres db !! pk = Some g →
             exec (SaveGenre pk g) db = Return db).
Proof.
  intros Hdb.
  destruct (reachable_integrity db Hdb) as [Hrefs _].
  pose proof (reachable_pairs_unique db Hdb) as Huq.
  destruct (reachable_catalog db Hdb) as ([Htr _] & [Hcs Hgs] & Hyears).
  split_and!.
  - intros now pk r Hk. simpl. apply save_review_Return.
    destruct (Hrefs pk r Hk) as [Ht Hau]. split_and!; try done.
    + apply unique_author_title_pair_true. intros pk' r' Hk'.
      destruct (decide (pk' = pk)) as [|Hne]; [by left | right].
      intros [Ha Ht']. by apply Hne, (Huq pk' pk r' r).
    + assert (Hrow : has_row (reviews db) pk = true)
        by (apply has_row_true; eauto).
      rewrite Hrow. symmetry. by apply set_reviews_id.
  - intros pk t Hk. simpl. apply save_title_Return. split_and!.
    + by apply (Htr pk t).
    + by apply (Hyears pk t).
    + symmetry. by apply set_titles_id.
  - intros pk c Hk. simpl. apply save_category_Return. split.
    + apply unique_category_slug_true. intros pk' c' Hk'.
      destruct (decide (pk' = pk)) as [|Hne]; [by left | right].
      intros Hslug. by apply Hne, (Hcs pk' pk c' c).
    + symmetry. by apply set_categories_id.
  - intros pk g Hk. simpl. apply save_genre_Return. split.
    + apply unique_genre_slug_true. intros pk' g' Hk'.
      destruct (decide (pk' = pk)) as [|Hne]; [by left | right].
      intros Hslug. by apply Hne, (Hgs pk' pk g' g).
    + symmetry. by apply set_genres_id.
Qed.

Lemma save_again_changes_nothing_witness :
  reachable (run Sample.reviewed empty_db)
  ∧ (∀ now pk r, reviews (run Sample.reviewed empty_db) !! pk = Some r →
       exec (SaveReview now pk r) (run Sample.reviewed empty_db)
       = Return (run Sample.reviewed empty_db))
  ∧ (∀ pk t, titles (run Sample.reviewed empty_db) !! pk = Some t →
       exec (SaveTitle pk t) (run Sample.reviewed empty_db)
       = Return (run Sample.reviewed empty_db))
  ∧ (∀ pk c, categories (run Sample.reviewed empty_db) !! pk = Some c →
       exec (SaveCategory pk c) (run Sample.reviewed empty_db)
       = Return (run Sample.reviewed empty_db))
  ∧ (∀ pk g, genres (run Sample.reviewed empty_db) !! pk = Some g →
       exec (SaveGenre pk g) (run Sample.reviewed empty_db)
       = Return (run Sample.reviewed empty_db)).
Proof.
  assert (H : reachable (run Sample.reviewed empty_db))
    by apply reachable_run, reachable_empty.
  split; [exact H|].
  exact (save_again_changes_nothing (run Sample.reviewed empty_db) H).
Defined.

(** X10: in a reachable state, saving a stored Comment again as it is
    stored succeeds and changes nothing, also when its author is the author
    of its Review: no check of the Comment table stands in the way. *)
Theorem save_comment_again (db : DB) (now pk : Z) (c : Comment.row) :
  reachable db → comments db !! pk = Some c →
  exec (SaveComment now pk c) db = Return db.
Proof.
  intros Hdb Hk.
  destruct (reachable_integrity db Hdb) as [_ Hcrefs].
  destruct (Hcrefs pk c Hk) as [Hrev Hau].
  assert (Hrow : has_row (comments db) pk = true)
    by (apply has_row_true; eauto).
  simpl. apply save_comment_Return. split_and!; try done.
  rewrite Hrow. symmetry. by apply set_comments_id.
Qed.

Lemma save_comment_again_witness :
  reachable (run Sample.self_commented empty_db)
  ∧ comments (run Sample.self_commented empty_db) !! 1000
    = Some (Comment.set_pub_date 6 (Sample.comment_by 1))
  ∧ exec (SaveComment 9 1000
            (Comment.set_pub_date 6 (Sample.comment_by 1)))
      (run Sample.self_commented empty_db)
    = Return (run Sample.self_commented empty_db).
Proof.
  assert (H1 : reachable (run Sample.self_commented empty_db))
    by apply reachable_run, reachable_empty.
  assert (H2 : comments (run Sample.self_commented empty_db) !! 1000
               = Some (Comment.set_pub_date 6 (Sample.comment_by 1)))
    by (vm_compute; reflexivity).
  split; [exact H1|]. split; [exact H2|].
  exact (save_comment_again _ 9 1000 _ H1 H2).
Defined.

(** ** Saving a row and reading it back *)

(** X11: saving a Review whose Title and author exist, whose author and
    title no other row has, and whose score and key are values the integer
    column holds, succeeds.  The row then stored under the key
    has the title, author, text and score given; its [pub_date] is the
    time of the save when the key was new ([auto_now_add]) and the given
    one when the row existed; every other Review and every other table is
    as before. *)
Theorem save_review_stores (db : DB) (now pk : Z) (r : Review.row) :
  in_integer_column (Review.score r) →
  in_integer_column pk →
  is_Some (titles db !! Review.title r) →
  Review.author r ∈ users db →
  (∀ pk' r', reviews db !! pk' = Some r' → pk' ≠ pk →
     ¬ (Review.author r' = Review.author r
        ∧ Review.title r' = Review.title r)) →
  ∃ db' stored,
    exec (SaveReview now pk r) db = Return db'
    ∧ reviews db' !! pk = Some stored
    ∧ Review.title stored = Review.title r
    ∧ Review.author stored = Review.author r
    ∧ Review.text stored = Review.text r
    ∧ Review.score stored = Review.score r
    ∧ Review.pub_date stored
      = match reviews db !! pk with
        | Some _ => Review.pub_date r
        | None => now
        end
    ∧ (∀ k, k ≠ pk → reviews db' !! k = reviews db !! k)
    ∧ comments db' = comments db ∧ titles db' = titles db
    ∧ users db' = users db ∧ categories db' = categories db
    ∧ genres db' = genres db ∧ title_genre db' = title_genre db.
Proof.
  intros _ _ Ht Hau Huq.
  eexists _, (if has_row (reviews db) pk then r
              else Review.set_pub_date now r).
  split.
  { simpl. apply save_review_Return. split_and!; try done.
    apply unique_author_title_pair_true. intros pk' r' Hk'.
    destruct (decide (pk' = pk)); [by left | right]. by apply (Huq pk' r'). }
  cbn. split; [apply lookup_insert_eq|].
  assert (Hrow : has_row (reviews db) pk
                 = bool_decide (is_Some (reviews db !! pk))) by done.
  destruct (reviews db !! pk) as [r0|] eqn:Hk.
  - rewrite Hrow, bool_decide_eq_true_2 by eauto.
    split_and!; try done. intros k Hne. by rewrite lookup_insert_ne.
  - rewrite Hrow, bool_decide_eq_false_2 by (by intros [? ?]).
    split_and!; try done. intros k Hne. by rewrite lookup_insert_ne.
Qed.

Lemma save_review_stores_witness :
  let db := run Scenario.titled empty_db in
  let r := Sample.review_by 1 7 in
  in_integer_column (Review.score r)
  ∧ in_integer_column 100
  ∧ is_Some (titles db !! Review.title r)
  ∧ Review.author r ∈ users db
  ∧ (∀ pk' r', reviews db !! pk' = Some r' → pk' ≠ 100 →
       ¬ (Review.author r' = Review.author r
          ∧ Review.title r' = Review.title r))
  ∧ ∃ db' stored,
      exec (SaveReview 5 100 r) db = Return db'
      ∧ reviews db' !! 100 = Some stored
      ∧ Review.title stored = Review.title r
      ∧ Review.author stored = Review.author r
      ∧ Review.text stored = Review.text r
      ∧ Review.score stored = Review.score r
      ∧ Review.pub_date stored
        = match reviews db !! 100 with
          | Some _ => Review.pub_date r
          | None => 5
          end
      ∧ (∀ k, k ≠ 100 → reviews db' !! k = reviews db !! k)
      ∧ comments db' = comments db ∧ titles db' = titles db
      ∧ users db' = users db ∧ categories db' = categories db
      ∧ genres db' = genres db ∧ title_genre db' = title_genre db.
Proof.
  assert (H1 : is_Some (titles (run Scenario.titled empty_db)
                          !! Review.title (Sample.review_by 1 7)))
    by (vm_compute; eauto).
  assert (H2 : Review.author (Sample.review_by 1 7)
               ∈ users (run Scenario.titled empty_db))
    by (apply (bool_decide_unpack _); vm_compute; exact I).
  assert (H3 : ∀ pk' r',
             reviews (run Scenario.titled empty_db) !! pk' = Some r' →
             pk' ≠ 100 →
             ¬ (Review.author r' = Review.author (Sample.review_by 1 7)
                ∧ Review.title r' = Review.title (Sample.review_by 1 7))).
  { intros pk' r' Hk.
    change (reviews (run Scenario.titled empty_db))
      with (∅ : gmap Z Review.row) in Hk.
    by rewrite lookup_empty in Hk. }
  assert (Hs : in_integer_column (Review.score (Sample.review_by 1 7)))
    by (unfold in_integer_column; simpl; lia).
  assert (Hk : in_integer_column 100) by (unfold in_integer_column; lia).
  split; [exact Hs|]. split; [exact Hk|].
  split; [exact H1|]. split; [exact H2|]. split; [exact H3|].
  exact (save_review_stores _ 5 100 _ Hs Hk H1 H2 H3).
Defined.

Lemma DB_eq db1 db2 :
  users db1 = users db2 → categories db1 = categories db2 →
  genres db1 = genres db2 → titles db1 = titles db2 →
  title_genre db1 = title_genre db2 → reviews db1 = reviews db2 →
  comments db1 = comments db2 → db1 = db2.
Proof. destruct db1, db2. cbn. by intros -> -> -> -> -> -> ->. Qed.

(** X12: a save under a new key followed by the delete of that key gives
    the state back.  For a Review, in a reachable state: no Comment is
    lost, since none can be on a Review that did not exist.  For a Comment,
    in any state. *)
Theorem save_then_delete_restores :
  (∀ db now pk r db1,
     reachable db → reviews db !! pk = None →
     exec (SaveReview now pk r) db = Return db1 →
     exec (DeleteReview pk) db1 = Return db)
  ∧ (∀ db now pk c db1,
       comments db !! pk = None →
       exec (SaveComment now pk c) db = Return db1 →
       exec (DeleteComment pk) db1 = Return db).
Proof.
  split.
  - intros db now pk r db1 Hdb Hfresh Hexec. simpl in *.
    apply save_review_Return in Hexec as (_ & _ & _ & ->).
    unfold delete_review. f_equal.
    destruct (reachable_integrity db Hdb) as [_ Hcrefs].
    apply DB_eq; try done.
    + apply map_eq. intros k. apply option_eq. intros x.
      rewrite delete_reviews_reviews, bool_decide_eq_false. cbn.
      rewrite lookup_insert_Some. split.
      * intros [[[-> _] | [_ Hk]] Hne]; done.
      * intros Hk. split; [right|]; [split|]; try done; intros ->;
          by rewrite Hfresh in Hk.
    + apply map_eq. intros k. apply option_eq. intros c.
      rewrite delete_reviews_comments. cbn. split; [by intros [? _]|].
      intros Hk. split; [done|]. intros x Hx.
      apply bool_decide_eq_false. intros Heq.
      destruct (Hcrefs k c Hk) as [[x0 Hx0] _].
      rewrite Heq, Hfresh in Hx0. done.
  - intros db now pk c db1 Hfresh Hexec. simpl in *.
    apply save_comment_Return in Hexec as (_ & _ & ->).
    unfold delete_comment. f_equal. apply DB_eq; try done. cbn.
    by rewrite delete_insert_id.
Qed.

(** ** How many reviews a title can have *)

Lemma size_le_authors (m : gmap Z Review.row) (U : gset Z) :
  (∀ k r, m !! k = Some r → Review.author r ∈ U) →
  (∀ k1 k2 r1 r2, m !! k1 = Some r1 → m !! k2 = Some r2 →
     Review.author r1 = Review.author r2 → k1 = k2) →
  (size m ≤ size U)%nat.
Proof.
  revert U. induction m as [|i x m Hfresh IH] using map_ind;
    intros U Hin Hinj.
  - rewrite map_size_empty. lia.
  - rewrite map_size_insert_None by done.
    assert (Hx : Review.author x ∈ U)
      by (apply (Hin i); apply lookup_insert_eq).
    assert (Hle : (size m ≤ size (U ∖ {[Review.author x]}))%nat).
    { apply IH.
      - intros k r Hk.
        assert (Hne : i ≠ k) by (intros ->; by rewrite Hfresh in Hk).
        apply elem_of_difference. split.
        + apply (Hin k). by rewrite lookup_insert_ne.
        + rewrite not_elem_of_singleton. intros Heq. apply Hne.
          apply (Hinj i k x r); [apply lookup_insert_eq | | done].
          by rewrite lookup_insert_ne.
      - intros k1 k2 r1 r2 H1 H2.
        assert (i ≠ k1) by (intros ->; by rewrite Hfresh in H1).
        assert (i ≠ k2) by (intros ->; by rewrite Hfresh in H2).
        apply Hinj; by rewrite lookup_insert_ne. }
    assert (Hsub : ({[Review.author x]} : gset Z) ⊆ U)
      by (by apply singleton_subseteq_l).
    pose proof (size_difference _ _ Hsub) as Hd.
    pose proof (subseteq_size _ _ Hsub) as Hs.
    rewrite size_singleton in Hd, Hs. lia.
Qed.

(** X13: in every reachable state a Title has at most as many Reviews as
    there are users: each Review has an existing author, and no author has
    two Reviews of one Title. *)
Theorem reviews_of_title_bounded (db : DB) (title_pk : Z) :
  reachable db →
  (size (reviews_of db title_pk) ≤ size (users db))%nat.
Proof.
  intros Hdb.
  destruct (reachable_integrity db Hdb) as [Hrefs _].
  pose proof (reachable_pairs_unique db Hdb) as Huq.
  apply size_le_authors.
  - intros k r [Hk _]%map_lookup_filter_Some. by destruct (Hrefs k r Hk).
  - intros k1 k2 r1 r2 [H1 Ht1]%map_lookup_filter_Some
      [H2 Ht2]%map_lookup_filter_Some Hau.
    cbn in Ht1, Ht2. apply (Huq k1 k2 r1 r2); congruence.
Qed.

Lemma reviews_of_title_bounded_witness :
  reachable (run Sample.reviewed_twice empty_db)
  ∧ (size (reviews_of (run Sample.reviewed_twice empty_db) 10)
     ≤ size (users (run Sample.reviewed_twice empty_db)))%nat.
Proof.
  assert (H : reachable (run Sample.reviewed_twice empty_db))
    by apply reachable_run, reachable_empty.
  split; [exact H|].
  exact (reviews_of_title_bounded _ 10 H).
Defined.

(** ** What save() checks *)

Lemma unique_author_title_pair_with_score db pk s r :
  unique_author_title_pair db pk (with_score s r)
  = unique_author_title_pair db pk r.
Proof. reflexivity. Qed.

(** X14: [save()] does not run the validators of the score.  Whether a
    Review is saved does not depend on its score (any two scores the column
    can hold), and every such score, inside [1,10] or not, is the score of
    a stored Review in some reachable state. *)
Theorem save_does_not_validate_score :
  (∀ db now pk r s,
     in_integer_column (Review.score r) → in_integer_column s →
     raises (exec (SaveReview now pk r) db)
     ↔ raises (exec (SaveReview now pk (with_score s r)) db))
  ∧ (∀ s, in_integer_column s →
       ∃ db r, reachable db ∧ reviews db !! 100 = Some r
               ∧ Review.score r = s).
Proof.
  split.
  - intros db now pk r s _ _. simpl. unfold save_review. cbn.
    rewrite unique_author_title_pair_with_score.
    destruct (foreign_key (titles db) (Review.title r)); [|done].
    destruct (check "FOREIGN KEY" _); [|done].
    destruct (check "unique_author_title_pair" _); done.
  - intros s _.
    exists (run (Scenario.titled ++ [SaveReview 5 100 (Sample.review_by 1 s)])
              empty_db), (Review.set_pub_date 5 (Sample.review_by 1 s)).
    split; [apply reachable_run, reachable_empty|].
    split; [vm_compute; reflexivity | reflexivity].
Qed.

(** X15: a Review whose Title or author does not exist, and a Comment whose
    Review or author does not exist, is refused by the foreign keys: the
    save raises an [IntegrityError] and the state stays as it was. *)
Theorem missing_parent_refused :
  (∀ db now pk r,
     titles db !! Review.title r = None ∨ Review.author r ∉ users db →
     (∃ name, exec (SaveReview now pk r) db = Raise (IntegrityError name))
     ∧ apply_op (SaveReview now pk r) db = db)
  ∧ (∀ db now pk c,
       reviews db !! Comment.review c = None ∨ Comment.author c ∉ users db →
       (∃ name, exec (SaveComment now pk c) db = Raise (IntegrityError name))
       ∧ apply_op (SaveComment now pk c) db = db).
Proof.
  split.
  - intros db now pk r Hmissing.
    assert (Hexec : ∃ name, exec (SaveReview now pk r) db
                            = Raise (IntegrityError name)).
    { simpl. unfold save_review, foreign_key, has_row.
      destruct Hmissing as [Ht | Hau].
      - rewrite Ht.
        rewrite (bool_decide_eq_false_2 (is_Some (@None Title.row)))
          by apply is_Some_None.
        by eexists.
      - destruct (bool_decide (is_Some (titles db !! Review.title r)));
          [|by eexists].
        cbn. rewrite (bool_decide_eq_false_2 _ Hau). by eexists. }
    split; [done|]. destruct Hexec as [name Hexec].
    apply apply_op_raises. by rewrite Hexec.
  - intros db now pk c Hmissing.
    assert (Hexec : ∃ name, exec (SaveComment now pk c) db
                            = Raise (IntegrityError name)).
    { simpl. unfold save_comment, foreign_key, has_row.
      destruct Hmissing as [Hr | Hau].
      - rewrite Hr.
        rewrite (bool_decide_eq_false_2 (is_Some (@None Review.row)))
          by apply is_Some_None.
        by eexists.
      - destruct (bool_decide (is_Some (reviews db !! Comment.review c)));
          [|by eexists].
        cbn. rewrite (bool_decide_eq_false_2 _ Hau). by eexists. }
    split; [done|]. destruct Hexec as [name Hexec].
    apply apply_op_raises. by rewrite Hexec.
Qed.
